(** * CareRewards Lead Manager: the lead engine of [app.py]

    A shallow embedding of the parts of [src/app.py] that classify, filter,
    rank and paginate leads, and of the outreach query template.

    Conventions of the embedding.
    - A pandas [DataFrame] is the list of its rows, in row order.  The index
      labels are never read by the code ([iloc], [head], boolean masks and
      [sort_values] are positional; exports use [index=False]).
    - A cell of an object column that pandas reads as missing ([NaN]) is
      [None]; [State], [Employer_Name], [Market_Segment] and [Plan_Name] are
      such columns.  [EIN] and [Participants] are integer columns.
    - Python integers are [Z]; [//] is [Z.div] (both round towards minus
      infinity for a positive divisor).
    - The regular-expression library behind [Series.str.contains] is an
      interface ([ReEngine]); the theorems hold for every engine. *)

From stdpp Require Import gmap strings list pretty sorting.
From Stdlib Require QArith Qround.

Open Scope Z_scope.

(** ** Data model *)

(** A row of [self_insured_crm_list.csv] as [pd.read_csv] returns it. *)
Record CsvRow := {
  csv_Employer_Name : option string;
  csv_EIN : Z;
  csv_State : option string;
  csv_Participants : Z;
  csv_Market_Segment : option string;
  csv_Plan_Name : option string
}.

(** A row of the frame [load_data] returns: the csv columns and the two
    derived columns [Priority_Tier] and [Perplexity_Query]. *)
Record Lead := {
  Employer_Name : option string;
  EIN : Z;
  State : option string;
  Participants : Z;
  Market_Segment : option string;
  Plan_Name : option string;
  Priority_Tier : string;
  Perplexity_Query : string
}.

Abbreviation DataFrame := (list Lead).

(** ** Python and pandas primitives *)

(** [x in xs] for a list of strings [xs] and a cell [x]: a missing cell is
    the float [nan], which is equal to no string. *)
Definition py_in (x : option string) (xs : list string) : bool :=
  match x with
  | Some s => bool_decide (s ∈ xs)
  | None => false
  end.

(** [str(x)] as an f-string field prints it: a string as it is, [nan] for a
    missing cell. *)
Definition py_str (x : option string) : string :=
  match x with
  | Some s => s
  | None => "nan"
  end.

(** [str(n)] of an integer: its decimal numeral. *)
Definition py_str_int (n : Z) : string := pretty n.

(** [s] occurs in [t] as a contiguous run of characters. *)
Definition str_infix (s t : string) : Prop :=
  ∃ pre post : string, t = pre +:+ s +:+ post.

(** ** Tier classifier ([app.py], lines 40-54) *)

Definition TIER_1_STATES : list string := ["MA"; "NY"; "CA"].
Definition TIER_2_STATES : list string := ["IL"; "TX"; "PA"; "FL"; "NJ"; "OH"].

(** The lambda applied to [df['State']] in [load_data]. *)
Definition priority_tier (x : option string) : string :=
  if py_in x TIER_1_STATES then "Tier 1"
  else if py_in x TIER_2_STATES then "Tier 2" else "Tier 3".

(** The lambda applied to [state_counts['State']] in
    [create_geographic_chart] (lines 102-105). *)
Definition chart_tier (x : option string) : string :=
  if py_in x TIER_1_STATES then "Tier 1"
  else if py_in x TIER_2_STATES then "Tier 2" else "Tier 3".

(** ** Query generator ([app.py], lines 56-60) *)

(** The f-string of the lambda applied to every row in [load_data]; it reads
    the three columns [Employer_Name], [EIN] and [State]. *)
Definition perplexity_query (name : option string) (ein : Z)
    (state : option string) : string :=
  "Find the employee benefits decision-maker (HR Director, Benefits Manager, or CFO) for "
  +:+ py_str name +:+ " (EIN: " +:+ py_str_int ein +:+ ") in " +:+ py_str state
  +:+ ". Include their name, title, email, and phone if available.".

Definition generate_query (row : Lead) : string :=
  perplexity_query (Employer_Name row) (EIN row) (State row).

(** ** [load_data] *)

(** One row of the loaded frame.  The query lambda runs on the frame that
    already has [Priority_Tier]; it does not read that column. *)
Definition load_row (r : CsvRow) : Lead :=
  {| Employer_Name := csv_Employer_Name r;
     EIN := csv_EIN r;
     State := csv_State r;
     Participants := csv_Participants r;
     Market_Segment := csv_Market_Segment r;
     Plan_Name := csv_Plan_Name r;
     Priority_Tier := priority_tier (csv_State r);
     Perplexity_Query :=
       perplexity_query (csv_Employer_Name r) (csv_EIN r) (csv_State r) |}.

(** [load_data] on the parsed csv: both derived columns are added to every
    row, the rows keep their order. *)
Definition load_data (csv : list CsvRow) : DataFrame := load_row <$> csv.

(** ** Exceptions *)

(** The one exception the engine can raise: [re.error], from compiling a
    search term that is not a regular expression. *)
Inductive Exn := re_error.

Inductive outcome (A : Type) :=
  | Returns (a : A)
  | Raises (e : Exn).
Arguments Returns {A} a.
Arguments Raises {A} e.

(** [outcome] is a monad: a step that raises ends the computation. *)
Global Instance outcome_bind : MBind outcome := λ A B k m,
  match m with
  | Returns a => k a
  | Raises e => Raises e
  end.

Global Instance outcome_ret : MRet outcome := λ A, Returns.

(** ** Regular expressions *)

(** What [Series.str.contains] needs of the expression library: [re.compile]
    of a term under the flag [re.IGNORECASE] (it may raise), and whether a
    compiled pattern is found somewhere in a string ([regex.search]). *)
Record ReEngine := {
  re_pattern : Type;
  re_compile : string → bool → option re_pattern;
  re_search : re_pattern → string → bool
}.

(** [col.str.contains(pat, case=case, na=False)] as a predicate on a cell:
    [regex=True] is the default, so [pat] is compiled first; a missing cell
    gives [na]. *)
Definition str_contains (E : ReEngine) (pat : string) (case : bool)
    : outcome (option string → bool) :=
  match re_compile E pat (negb case) with
  | Some p =>
      Returns (λ cell, match cell with
                       | Some s => re_search E p s
                       | None => false
                       end)
  | None => Raises re_error
  end.

(** [col.isin(values)]: the cell is one of [values]; a missing cell matches
    a missing value only. *)
Definition isin (values : list (option string)) (cell : option string)
    : bool :=
  bool_decide (cell ∈ values).

(** Truth value of a list and of a string in an [if]. *)
Definition list_truthy {A} (l : list A) : bool :=
  match l with [] => false | _ => true end.

Definition str_truthy (s : string) : bool :=
  match s with EmptyString => false | _ => true end.

(** ** Filter pipeline ([main], lines 148-249) *)

(** The values read from the sidebar widgets. *)
Record FilterRequest := {
  selected_states : list string;
  selected_tiers : list string;
  participant_range : Z * Z;
  selected_segments : list (option string);
  search_employer : string;
  search_ein : string
}.

(** [df[mask]] for a mask computed row by row: the rows where it holds, in
    their order. *)
Definition boolean_index (mask : Lead → bool) (df : DataFrame) : DataFrame :=
  filter (λ r, mask r) df.

(** Lines 233-236: the participants mask, inclusive at both ends. *)
Definition filter_participants (range : Z * Z) (df : DataFrame) : DataFrame :=
  boolean_index
    (λ r, (range.1 <=? Participants r) && (Participants r <=? range.2)) df.

(** Lines 225-249, [df_filtered] after the last step. *)
Definition apply_filters (E : ReEngine) (df_original : DataFrame)
    (rq : FilterRequest) : outcome DataFrame :=
  let df_filtered := df_original in
  let df_filtered :=
    if list_truthy (selected_states rq)
    then boolean_index (λ r, isin (Some <$> selected_states rq) (State r))
           df_filtered
    else df_filtered in
  let df_filtered :=
    if list_truthy (selected_tiers rq)
    then boolean_index (λ r, bool_decide (Priority_Tier r ∈ selected_tiers rq))
           df_filtered
    else df_filtered in
  let df_filtered := filter_participants (participant_range rq) df_filtered in
  let df_filtered :=
    if list_truthy (selected_segments rq)
    then boolean_index (λ r, isin (selected_segments rq) (Market_Segment r))
           df_filtered
    else df_filtered in
  df_filtered ←
    (if str_truthy (search_employer rq)
     then m ← str_contains E (search_employer rq) false;
          Returns (boolean_index (λ r, m (Employer_Name r)) df_filtered)
     else Returns df_filtered);
  if str_truthy (search_ein rq)
  then m ← str_contains E (search_ein rq) true;
       Returns (boolean_index (λ r, m (Some (py_str_int (EIN r)))) df_filtered)
  else Returns df_filtered.

(** ** Sorting ([DataFrame.sort_values] on several columns) *)

(** With more than one key pandas computes an indexer with [lexsort_indexer]
    and takes the rows at those positions.  That sort is stable (numpy's
    [lexsort], or a counting sort or [mergesort] on the combined codes of the
    keys, all stable).  It is modelled by a stable insertion sort of the
    positions; [argsort_unique] shows that every stable sort returns the same
    list. *)
Section stable_sort.
Context {A : Type} (le : A → A → bool).

(** [x] goes in front of the first element that is not before it. *)
Fixpoint insert_sorted (x : A) (l : list A) : list A :=
  match l with
  | [] => [x]
  | y :: l' => if le x y then x :: l else y :: insert_sorted x l'
  end.

(** Every element is inserted into the sorted rest of the list: among
    elements that compare equal the earlier one stays in front. *)
Definition stable_sort (l : list A) : list A := foldr insert_sorted [] l.
End stable_sort.

(** The rows with their positions in the input, sorted by the rows. *)
Definition argsort {A} (le : A → A → bool) (l : list A) : list (nat * A) :=
  stable_sort (λ x y, le x.2 y.2) (imap pair l).

(** ** Ranking engine ([get_top_priority_leads], lines 130-138) *)

Definition tier_order : gmap string Z :=
  {[ "Tier 1" := 0; "Tier 2" := 1; "Tier 3" := 2 ]}.

(** [df_sorted['Priority_Tier'].map(tier_order)]: the rank of the label, a
    missing value for a label that is not a key of [tier_order]. *)
Definition Tier_Rank (r : Lead) : option Z := tier_order !! Priority_Tier r.

(** The frame with the column [Tier_Rank] added. *)
Definition with_Tier_Rank (df : DataFrame) : list (Lead * option Z) :=
  (λ r, (r, Tier_Rank r)) <$> df.

(** Ascending order on a key with missing values, [na_position='last']. *)
Definition compare_na_last (x y : option Z) : comparison :=
  match x, y with
  | Some a, Some b => a ?= b
  | Some _, None => Lt
  | None, Some _ => Gt
  | None, None => Eq
  end.

(** [by=['Tier_Rank', 'Participants'], ascending=[True, False]]: the first
    key decides, the second key, in descending order, breaks its ties. *)
Definition lexsort_compare (x y : Lead * option Z) : comparison :=
  match compare_na_last x.2 y.2 with
  | Eq => Participants y.1 ?= Participants x.1
  | c => c
  end.

Definition lexsort_le (x y : Lead * option Z) : bool :=
  match lexsort_compare x y with Gt => false | _ => true end.

(** The sorted frame, every row with the position it had in [df]. *)
Definition df_sorted (df : DataFrame) : list (nat * (Lead * option Z)) :=
  argsort lexsort_le (with_Tier_Rank df).

(** The positions of the input in output order: the indexer of the sort. *)
Definition rank_indexer (df : DataFrame) : list nat := fst <$> df_sorted df.

(** [df_sorted] after [drop('Tier_Rank', axis=1)]: the ranked frame. *)
Definition rank (df : DataFrame) : DataFrame :=
  fst <$> (snd <$> df_sorted df).

(** ** Positional slices *)

(** A bound of a Python slice on a sequence of length [len]: a negative
    bound counts from the end, and every bound is clipped to [0..len]. *)
Definition slice_bound (len i : Z) : Z :=
  if i <? 0 then Z.max 0 (i + len) else Z.min i len.

(** [l.iloc[start:stop]]. *)
Definition iloc_slice {A} (l : list A) (start stop : Z) : list A :=
  let len := Z.of_nat (length l) in
  let lo := slice_bound len start in
  let hi := slice_bound len stop in
  take (Z.to_nat (hi - lo)) (drop (Z.to_nat lo) l).

(** [df.head(n)] is [df.iloc[:n]]. *)
Definition head {A} (n : Z) (l : list A) : list A := iloc_slice l 0 n.

Definition get_top_priority_leads (df : DataFrame) (n : Z) : DataFrame :=
  head n (rank df).

(** The default of [n], and the value [main] passes. *)
Definition top_n : Z := 50.

(** ** Paginator ([main], lines 302-313) *)

Definition leads_per_page : Z := 50.

(** Line 304 for [n_items] rows and a page size. *)
Definition total_pages (n_items page_size : Z) : Z :=
  (n_items - 1) `div` page_size + 1.

(** Lines 308-313: the rows of page [page]. *)
Definition page_slice {A} (l : list A) (page_size page : Z) : list A :=
  let start_idx := (page - 1) * page_size in
  let end_idx := start_idx + page_size in
  iloc_slice l start_idx end_idx.

(** The columns of the lead table. *)
Record DisplayRow := {
  d_Employer_Name : option string;
  d_EIN : Z;
  d_State : option string;
  d_Participants : Z;
  d_Market_Segment : option string;
  d_Priority_Tier : string;
  d_Plan_Name : option string
}.

(** [df_filtered[display_cols]] on one row. *)
Definition display_cols (r : Lead) : DisplayRow :=
  {| d_Employer_Name := Employer_Name r;
     d_EIN := EIN r;
     d_State := State r;
     d_Participants := Participants r;
     d_Market_Segment := Market_Segment r;
     d_Priority_Tier := Priority_Tier r;
     d_Plan_Name := Plan_Name r |}.

(** [df_page] for the page the number input returns; the table is shown
    only when [total_pages > 0]. *)
Definition df_page (df_filtered : DataFrame) (page : Z)
    : option (list DisplayRow) :=
  if 0 <? total_pages (Z.of_nat (length df_filtered)) leads_per_page
  then Some (page_slice (display_cols <$> df_filtered) leads_per_page page)
  else None.

(** The ceiling of the quotient [n / k], on the rationals. *)
Definition ceil_quotient (n k : Z) : Z :=
  Qround.Qceiling
    (QArith_base.Qdiv (QArith_base.inject_Z n) (QArith_base.inject_Z k)).

(** ** An expression engine for plain search terms *)

(** The characters with a meaning of their own in a pattern of [re]. *)
Definition re_special (c : Ascii.ascii) : bool :=
  bool_decide (c ∈ String.list_ascii_of_string ".^$*+?{}[]\|()").

Fixpoint str_plain (s : string) : bool :=
  match s with
  | EmptyString => true
  | String c s' => negb (re_special c) && str_plain s'
  end.

(** [pat] occurs in [s]. *)
Fixpoint str_find (pat s : string) : bool :=
  String.prefix pat s ||
  match s with
  | EmptyString => false
  | String _ s' => str_find pat s'
  end.

Definition ascii_lower (c : Ascii.ascii) : Ascii.ascii :=
  let n := Ascii.nat_of_ascii c in
  if (65 <=? n)%nat && (n <=? 90)%nat then Ascii.ascii_of_nat (n + 32) else c.

Fixpoint str_lower (s : string) : string :=
  match s with
  | EmptyString => EmptyString
  | String c s' => String (ascii_lower c) (str_lower s')
  end.

(** An engine for the search terms that [re] reads as plain text: a term
    without special characters compiles to a search for the term itself,
    with the letters A to Z folded to lower case under [re.IGNORECASE].  The engine compiles no
    other term; [re] compiles some of them and raises [re.error] on the
    rest, among them a lone opening parenthesis.  The engine is used to run
    the pipeline on examples, on terms where it agrees with [re]. *)
Definition plain_re : ReEngine :=
  {| re_pattern := string * bool;
     re_compile pat ignorecase :=
       if str_plain pat then Some (pat, ignorecase) else None;
     re_search p s :=
       if p.2 then str_find (str_lower p.1) (str_lower s)
       else str_find p.1 s |}.

(** ** Vocabulary of the properties *)

(** The order of two rows, each with its position in the input, in the
    output of a stable sort by [le]: [u] is not after [v] by [le], and when
    the two compare equal [u] has the smaller position. *)
Definition stable_before {A} (le : A → A → bool) (u v : nat * A) : Prop :=
  le u.2 v.2 = true ∧ (le v.2 u.2 = true → (u.1 < v.1)%nat).

(** Tier 1 comes before Tier 2, which comes before Tier 3. *)
Definition tier_precedes (t1 t2 : string) : Prop :=
  (t1 = "Tier 1" ∧ t2 = "Tier 2") ∨ (t1 = "Tier 1" ∧ t2 = "Tier 3")
  ∨ (t1 = "Tier 2" ∧ t2 = "Tier 3").

(** The mask of a search box: the term compiled when there is one, every
    cell accepted when the box is empty. *)
Definition search_mask (E : ReEngine) (term : string) (case : bool)
    : outcome (option string → bool) :=
  if str_truthy term then str_contains E term case else Returns (λ _, true).

(** The criteria of a request as one mask on a row, their conjunction; a
    criterion whose list is empty accepts every row. *)
Definition request_mask (E : ReEngine) (rq : FilterRequest)
    : outcome (Lead → bool) :=
  by_name ← search_mask E (search_employer rq) false;
  by_ein ← search_mask E (search_ein rq) true;
  Returns (λ r,
    (if list_truthy (selected_states rq)
     then isin (Some <$> selected_states rq) (State r) else true)
    && (if list_truthy (selected_tiers rq)
        then bool_decide (Priority_Tier r ∈ selected_tiers rq) else true)
    && ((participant_range rq).1 <=? Participants r)
    && (Participants r <=? (participant_range rq).2)
    && (if list_truthy (selected_segments rq)
        then isin (selected_segments rq) (Market_Segment r) else true)
    && by_name (Employer_Name r)
    && by_ein (Some (py_str_int (EIN r)))).

(** A search term that does not raise under [str.contains(term, case=case)]:
    the box is empty, or the term compiles. *)
Definition term_compiles (E : ReEngine) (term : string) (case : bool)
    : Prop :=
  term = "" ∨ is_Some (re_compile E term (negb case)).

(** ** Example data *)

(** The three leads of the scenario of the specification, and a fourth. *)
Definition csv_A : CsvRow :=
  {| csv_Employer_Name := Some "A"; csv_EIN := 11; csv_State := Some "MA";
     csv_Participants := 6000; csv_Market_Segment := Some "Large (5K+)";
     csv_Plan_Name := None |}.

Definition csv_B : CsvRow :=
  {| csv_Employer_Name := Some "B"; csv_EIN := 22; csv_State := Some "TX";
     csv_Participants := 3000; csv_Market_Segment := Some "Mid";
     csv_Plan_Name := None |}.

Definition csv_C : CsvRow :=
  {| csv_Employer_Name := Some "C"; csv_EIN := 33; csv_State := Some "WY";
     csv_Participants := 9000; csv_Market_Segment := Some "Large (5K+)";
     csv_Plan_Name := None |}.

Definition csv_D : CsvRow :=
  {| csv_Employer_Name := Some "D"; csv_EIN := 44; csv_State := Some "NY";
     csv_Participants := 7500; csv_Market_Segment := Some "Large (5K+)";
     csv_Plan_Name := None |}.

Definition lead_A : Lead := load_row csv_A.

Definition lead_B : Lead := load_row csv_B.

Definition lead_C : Lead := load_row csv_C.

Definition lead_D : Lead := load_row csv_D.

(** Lead A when its plan has 10 participants: another row, with the same
    employer name, EIN and state. *)
Definition lead_A_small : Lead :=
  load_row
    {| csv_Employer_Name := Some "A"; csv_EIN := 11; csv_State := Some "MA";
       csv_Participants := 10; csv_Market_Segment := Some "Small";
       csv_Plan_Name := Some "Plan 501" |}.

(** A frame with two pairs of equal rows, and a frame out of rank order. *)
Definition two_ties : DataFrame := [lead_B; lead_A; lead_B; lead_C; lead_A].

Definition unranked : DataFrame := [lead_C; lead_B; lead_A; lead_D].

(** A request that constrains nothing but the participants range. *)
Definition range_only (lo hi : Z) : FilterRequest :=
  {| selected_states := []; selected_tiers := [];
     participant_range := (lo, hi); selected_segments := [];
     search_employer := ""; search_ein := "" |}.

(** A request with every criterion set and a reversed range. *)
Definition reversed_request : FilterRequest :=
  {| selected_states := ["MA"]; selected_tiers := ["Tier 1"];
     participant_range := (10000, 4000);
     selected_segments := [Some "Large (5K+)"];
     search_employer := "a"; search_ein := "1" |}.


(** ** Exceptions of the dashboard *)

(** The exceptions the tabs of [main] can raise: [re.error] from the
    filters, [ValueError] from [int] of a [nan], [IndexError] from [iloc[0]]
    on a frame without rows. *)
Inductive PyExn := ReError | ValueError | IndexError.

Inductive result (A : Type) :=
  | Ok (a : A)
  | Exc (e : PyExn).
Arguments Ok {A} a.
Arguments Exc {A} e.

Global Instance result_bind : MBind result := λ A B k m,
  match m with
  | Ok a => k a
  | Exc e => Exc e
  end.

Global Instance result_ret : MRet result := λ A, Ok.

(** The outcome of the filters inside a tab. *)
Definition of_outcome {A} (o : outcome A) : result A :=
  match o with
  | Returns a => Ok a
  | Raises re_error => Exc ReError
  end.

(** ** Column statistics *)

From Stdlib Require SpecFloat.

(** pandas computes the median and the mean of an integer column in float64,
    which has a significand of 53 bits: an integer of magnitude up to 2^53
    is a float64, a larger one is rounded to the nearest multiple of the
    unit of its binade, to the one with the even significand when two are
    as near.  [float64 z] is the integer value of the float64 that the
    conversion of the integer [z] gives.  The integers of a column are far
    below 2^1024, where float64 overflows. *)
Definition float64 (z : Z) : Z :=
  let e := Z.log2 (Z.abs z) - 52 in
  if e <=? 0 then z
  else
    let ulp := 2 ^ e in
    let q := z `div` ulp in
    let r := z `mod` ulp in
    if 2 * r <? ulp then q * ulp
    else if ulp <? 2 * r then (q + 1) * ulp
    else if Z.even q then q * ulp else (q + 1) * ulp.

(** The integers that are a float64: the multiples of the unit of their
    binade. *)
Definition is_float64 (x : Z) : Prop :=
  (2 ^ Z.max 0 (Z.log2 (Z.abs x) - 52) | x).

(** The same conversion by the model of IEEE 754 arithmetic of the Standard
    Library ([SpecFloat]) at the format of float64, a precision of 53 bits
    and exponents below 1024: the integer value of the float it rounds [z]
    to, when that float is an integer. *)
Definition spec_float_Z (f : SpecFloat.spec_float) : option Z :=
  match f with
  | SpecFloat.S754_zero _ => Some 0
  | SpecFloat.S754_finite s m e =>
      let v := if s then - Z.pos m else Z.pos m in
      if 0 <=? e then Some (v * 2 ^ e)
      else if Z.pos m `mod` 2 ^ (- e) =? 0 then Some (v `quot` 2 ^ (- e))
      else None
  | _ => None
  end.

Definition spec_float64 (z : Z) : option Z :=
  spec_float_Z
    (match z with
     | Z0 => SpecFloat.S754_zero false
     | Zpos p => SpecFloat.binary_normalize 53 1024 (Z.pos p) 0 false
     | Zneg p =>
         SpecFloat.SFopp (SpecFloat.binary_normalize 53 1024 (Z.pos p) 0 false)
     end).

(** Integers around the binades of float64, with ties and near ties. *)
Definition float64_samples : list Z :=
  [0; 1; -1; 6750; 2 ^ 52; 2 ^ 53 - 1; 2 ^ 53; 2 ^ 53 + 1; 2 ^ 53 + 2;
   2 ^ 53 + 3; 2 ^ 53 + 5; 2 ^ 54 - 5; 2 ^ 54 - 1; 2 ^ 54 + 2; 2 ^ 54 + 6;
   - (2 ^ 53 + 1); - (2 ^ 53 + 3); - (2 ^ 54 - 1); - (2 ^ 54 + 6);
   2 ^ 60 + 2 ^ 7 - 1; 2 ^ 60 + 2 ^ 7; 2 ^ 60 + 2 ^ 7 + 1; 2 ^ 60 + 3 * 2 ^ 7;
   - (2 ^ 60 + 3 * 2 ^ 7); 2 ^ 63 - 1; - 2 ^ 63; 2 ^ 64 - 1;
   123456789012345678901234567890; - 123456789012345678901234567890].

(** [int(col.median())] of an integer column.  The median of pandas converts
    the column to float64 and returns [nan] for an empty column, the middle
    value of the sorted column for an odd count and the mean of the two
    middle values for an even count: their float64 sum, halved (halving a
    float64 is exact).  [int] raises [ValueError] on [nan] and truncates
    towards zero. *)
Definition int_median (col : list Z) : result Z :=
  let s := stable_sort Z.leb (float64 <$> col) in
  let n := length s in
  match n with
  | O => Exc ValueError
  | _ =>
      if Nat.odd n then Ok (default 0 (s !! (n / 2)%nat))
      else Ok (float64 (default 0 (s !! (n / 2 - 1)%nat)
                        + default 0 (s !! (n / 2)%nat))
               `quot` 2)
  end.

(** [int(col.mean())] of an integer column.  The mean of pandas is [nan] for
    an empty column, on which [int] raises [ValueError]; for a column with
    rows it is the float64 sum of the column over the count.  The order in
    which numpy adds the values, which decides how a sum beyond 2^53 is
    rounded, is not in the source: the truncated mean of a column with rows
    is the parameter [mean] of the model. *)
Definition int_mean (mean : list Z → Z) (col : list Z) : result Z :=
  match col with
  | [] => Exc ValueError
  | _ => Ok (mean col)
  end.

(** The truncated mean in exact arithmetic, the sum over the count truncated
    towards zero: the parameter with which the examples are run. *)
Definition exact_mean (col : list Z) : Z :=
  foldr Z.add 0 col `quot` Z.of_nat (length col).

(** ** Summary statistics ([create_summary_stats], lines 70-94) *)

(** The values of the four metrics, before they are formatted. *)
Record SummaryStats := {
  total_leads : nat;
  median_participants : Z;
  tier1_count : nat;
  large_market : nat
}.

(** [df[df['Priority_Tier'] == tier]] and [df[df['Market_Segment'] ==
    segment]]; a missing segment is equal to no string. *)
Definition tier_rows (tier : string) (df : DataFrame) : DataFrame :=
  boolean_index (λ r, bool_decide (Priority_Tier r = tier)) df.

Definition segment_rows (segment : string) (df : DataFrame) : DataFrame :=
  boolean_index (λ r, bool_decide (Market_Segment r = Some segment)) df.

Definition create_summary_stats (df : DataFrame) : result SummaryStats :=
  let total := length df in
  median ← int_median (Participants <$> df);
  let tier1 := length (tier_rows "Tier 1" df) in
  let large := length (segment_rows "Large (5K+)" df) in
  Ok {| total_leads := total; median_participants := median;
        tier1_count := tier1; large_market := large |}.

(** ** Geographic chart ([create_geographic_chart], lines 96-116) *)

(** [col.dropna()] of a column of strings. *)
Definition dropna (col : list (option string)) : list string := omap id col.

(** [col.unique()]: the values in the order of their first appearance. *)
Fixpoint unique (col : list string) : list string :=
  match col with
  | [] => []
  | x :: col' => x :: filter (λ y, y ≠ x) (unique col')
  end.

(** The number of cells of [col] that hold [s]. *)
Definition count_of (s : string) (col : list string) : nat :=
  length (filter (λ y, y = s) col).

(** What [value_counts] needs of the sort of the counts: the rows come back,
    the larger count first.  The order of equal counts is the choice of
    numpy's quicksort. *)
Definition sorts_descending
    (sort_counts : list (string * nat) → list (string * nat)) : Prop :=
  ∀ l, sort_counts l ≡ₚ l
       ∧ StronglySorted (λ x y, (y.2 ≤ x.2)%nat) (sort_counts l).

(** [col.value_counts()]: every value that is not missing with the number of
    its cells, sorted by [sort_counts]. *)
Definition value_counts
    (sort_counts : list (string * nat) → list (string * nat))
    (col : list (option string)) : list (string * nat) :=
  let present := dropna col in
  sort_counts ((λ s, (s, count_of s present)) <$> unique present).

(** A row of [state_counts]: a bar of the chart. *)
Record StateCount := {
  sc_State : string;
  sc_Count : nat;
  sc_Tier : string
}.

(** The frame [state_counts] that [px.bar] draws. *)
Definition create_geographic_chart
    (sort_counts : list (string * nat) → list (string * nat))
    (df : DataFrame) : list StateCount :=
  (λ sc, {| sc_State := sc.1; sc_Count := sc.2;
            sc_Tier := chart_tier (Some sc.1) |})
    <$> head 15 (value_counts sort_counts (State <$> df)).

(** A sort of the counts: the stable sort, larger count first. *)
Definition stable_sort_counts (l : list (string * nat)) : list (string * nat) :=
  stable_sort (λ x y, (y.2 <=? x.2)%nat) l.

(** ** Sidebar ([main], lines 148-184) *)

(** [list(df_original['State'].dropna().unique())]: the selection of the
    "All States" button and of the first run. *)
Definition all_states_selection (df_original : DataFrame) : list string :=
  unique (dropna (State <$> df_original)).

(** ** Lead table ([main], lines 302-351) *)

(** The three numbers of the caption under the table (line 330). *)
Definition caption (df_filtered : DataFrame) (page : Z) : Z * Z * Z :=
  let start_idx := (page - 1) * leads_per_page in
  let end_idx := start_idx + leads_per_page in
  (start_idx + 1, Z.min end_idx (Z.of_nat (length df_filtered)),
   Z.of_nat (length df_filtered)).

(** Truth value of a cell in an [if]: [nan] is true, a string is true when
    it is not empty. *)
Definition cell_truthy (x : option string) : bool :=
  match x with
  | Some s => str_truthy s
  | None => true
  end.

(** [cell == value] in a mask: [nan] is equal to nothing. *)
Definition cell_eq (cell value : option string) : bool :=
  match cell, value with
  | Some a, Some b => bool_decide (a = b)
  | _, _ => false
  end.

(** [frame.iloc[0]]. *)
Definition iloc0 {A} (frame : list A) : result A :=
  match frame with
  | x :: _ => Ok x
  | [] => Exc IndexError
  end.

(** Lines 342-351: the query shown for the employer picked in the select
    box, nothing when the picked value is false. *)
Definition query_display (df_filtered : DataFrame)
    (selected_employer : option string) : result (option string) :=
  if cell_truthy selected_employer then
    lead_data ← iloc0 (boolean_index
                         (λ r, cell_eq (Employer_Name r) selected_employer)
                         df_filtered);
    Ok (Some (Perplexity_Query lead_data))
  else Ok None.

(** The request with another selection of states, as one of the lists the
    quick filter buttons store in the session. *)
Definition set_states (states : list string) (rq : FilterRequest)
    : FilterRequest :=
  {| selected_states := states;
     selected_tiers := selected_tiers rq;
     participant_range := participant_range rq;
     selected_segments := selected_segments rq;
     search_employer := search_employer rq;
     search_ein := search_ein rq |}.

(** [df[df['State'].notna()]]: the rows with a state. *)
Definition state_rows (df : DataFrame) : DataFrame :=
  boolean_index (λ r, bool_decide (is_Some (State r))) df.

(** ** Tabs of [main] *)

(** Lines 254-256: the summary of the dashboard tab, computed from the
    filtered frame whatever its length. *)
Definition dashboard_summary (E : ReEngine) (df_original : DataFrame)
    (rq : FilterRequest) : result SummaryStats :=
  df_filtered ← of_outcome (apply_filters E df_original rq);
  create_summary_stats df_filtered.

(** The three metrics of the priority breakdown (lines 399-411). *)
Record PriorityBreakdown := {
  tier1_leads : nat;
  avg_participants : Z;
  large_leads : nat
}.

Definition priority_breakdown (mean : list Z → Z) (top_leads : DataFrame)
    : result PriorityBreakdown :=
  let tier1 := length (tier_rows "Tier 1" top_leads) in
  avg ← int_mean mean (Participants <$> top_leads);
  let large := length (segment_rows "Large (5K+)" top_leads) in
  Ok {| tier1_leads := tier1; avg_participants := avg;
        large_leads := large |}.

(** Lines 357-411: the top priority tab on the filtered frame. *)
Definition top_priority_tab (mean : list Z → Z) (df_filtered : DataFrame)
    : result PriorityBreakdown :=
  priority_breakdown mean (get_top_priority_leads df_filtered top_n).

(** ** Numerals *)

(** The characters of a decimal numeral: the digits and the minus sign. *)
Definition numeral_char (c : Ascii.ascii) : bool :=
  bool_decide (c ∈ String.list_ascii_of_string "0123456789-").

(** Every character of [s] satisfies [P]. *)
Fixpoint str_all (P : Ascii.ascii → bool) (s : string) : bool :=
  match s with
  | EmptyString => true
  | String c s' => P c && str_all P s'
  end.

(** ** Ranked frames *)

(** A row is not after another in the order of the ranking: its tier rank
    is smaller, or the tier ranks are equal and it has at least as many
    participants. *)
Definition outranks (a b : Lead) : Prop :=
  lexsort_le (a, Tier_Rank a) (b, Tier_Rank b) = true.

(** A frame in the order of the ranking. *)
Definition ranked (df : DataFrame) : Prop := StronglySorted outranks df.

(** The rows with a given tier label and participant count: the rows that
    tie in the ranking. *)
Definition tie_rows (tier : string) (participants : Z) (df : DataFrame)
    : DataFrame :=
  boolean_index
    (λ r, bool_decide (Priority_Tier r = tier)
          && (Participants r =? participants)) df.

(** ** Loaded frames *)

(** A row as [load_data] makes it: the tier is the tier of its state and the
    query is the query of its columns. *)
Definition loaded (r : Lead) : Prop :=
  Priority_Tier r = priority_tier (State r)
  ∧ Perplexity_Query r = generate_query r.

(** ** More example data *)

(** Another employer with the name of lead A, in another state and with
    another EIN. *)
Definition lead_A_other : Lead :=
  load_row
    {| csv_Employer_Name := Some "A"; csv_EIN := 12; csv_State := Some "CA";
       csv_Participants := 700; csv_Market_Segment := Some "Small";
       csv_Plan_Name := None |}.

(** A lead in a given state, and a frame with leads in sixteen states. *)
Definition lead_in (state : string) : Lead :=
  load_row
    {| csv_Employer_Name := Some ("Employer " +:+ state); csv_EIN := 50;
       csv_State := Some state; csv_Participants := 800;
       csv_Market_Segment := Some "Small"; csv_Plan_Name := None |}.

Definition sixteen_states : DataFrame :=
  lead_in <$> ["MA"; "NY"; "CA"; "IL"; "TX"; "PA"; "FL"; "NJ"; "OH"; "WY";
               "MA"; "AZ"; "CO"; "GA"; "MI"; "NC"; "VA"; "MA"; "WA"].

(** * Properties *)

(** ** The scenario of the specification *)

Example scenario_classify :
  Priority_Tier <$> load_data [csv_A; csv_B; csv_C]
  = ["Tier 1"; "Tier 2"; "Tier 3"].
Proof. reflexivity. Qed.

Example scenario_rank :
  rank [lead_A; lead_B; lead_C] = [lead_A; lead_B; lead_C]
  ∧ rank [lead_C; lead_B; lead_A] = [lead_A; lead_B; lead_C]
  ∧ get_top_priority_leads [lead_C; lead_B; lead_A] 2 = [lead_A; lead_B].
Proof. by vm_compute. Qed.

Example scenario_filter :
  apply_filters plain_re [lead_A; lead_B; lead_C] (range_only 4000 10000)
  = Returns [lead_A; lead_C].
Proof. by vm_compute. Qed.

Example scenario_pages :
  page_slice [lead_A; lead_B; lead_C] 2 2 = [lead_C]
  ∧ page_slice [lead_A; lead_B; lead_C] 2 3 = [].
Proof. by vm_compute. Qed.

(** ** Tier classifier *)

Lemma py_in_spec (x : option string) (xs : list string) :
  py_in x xs = true ↔ (∃ s, x = Some s ∧ s ∈ xs).
Proof.
  destruct x as [s|]; simpl.
  - rewrite bool_decide_eq_true.
    split; [by exists s | by intros (? & [= ->] & ?)].
  - split; [done | by intros (? & ? & _)].
Qed.

Lemma tier_tables_disjoint (s : string) :
  s ∈ TIER_1_STATES → s ∈ TIER_2_STATES → False.
Proof.
  unfold TIER_1_STATES, TIER_2_STATES.
  rewrite !elem_of_cons, !elem_of_nil. intros H1 H2.
  destruct H1 as [-> | [-> | [-> | []]]];
    repeat (destruct H2 as [H2|H2]; [discriminate|]); done.
Qed.

(** C2. The lambda of [load_data] gives every state value, a missing one
    included, one of the three tier labels: a state of [TIER_1_STATES] gets
    Tier 1, otherwise a state of [TIER_2_STATES] gets Tier 2, and every other
    value (a missing or unknown state) gets Tier 3; the two tables share no
    state. *)
Theorem priority_tier_total (x : option string) :
  (priority_tier x = "Tier 1" ∨ priority_tier x = "Tier 2"
   ∨ priority_tier x = "Tier 3")
  ∧ (priority_tier x = "Tier 1" ↔ (∃ s, x = Some s ∧ s ∈ TIER_1_STATES))
  ∧ (priority_tier x = "Tier 2" ↔ (∃ s, x = Some s ∧ s ∈ TIER_2_STATES))
  ∧ (priority_tier x = "Tier 3" ↔
       (∀ s, x = Some s → (s ∉ TIER_1_STATES) ∧ (s ∉ TIER_2_STATES)))
  ∧ priority_tier None = "Tier 3"
  ∧ (∀ s : string, ¬ (s ∈ TIER_1_STATES ∧ s ∈ TIER_2_STATES)).
Proof.
  assert (Hd := tier_tables_disjoint).
  assert (H1 := py_in_spec x TIER_1_STATES).
  assert (H2 := py_in_spec x TIER_2_STATES).
  assert (Hnone : priority_tier None = "Tier 3") by reflexivity.
  unfold priority_tier at 1 2 3 4 5 6.
  destruct (py_in x TIER_1_STATES); [|destruct (py_in x TIER_2_STATES)].
  - destruct H1 as [[s [-> Hs]] _]; [done|].
    split; [by left|]. split; [by split; eauto|].
    split; [split; [done|]; intros (s' & [= <-] & Hs'); by destruct (Hd s)|].
    split; [split; [done|]; intros H; by destruct (H s eq_refl)|].
    split; [done|]. intros s' [? ?]. by apply (Hd s').
  - destruct H2 as [[s [-> Hs]] _]; [done|].
    split; [by right; left|].
    split; [split; [done|]; intros (s' & [= <-] & Hs'); by destruct (Hd s)|].
    split; [by split; eauto|].
    split; [split; [done|]; intros H; by destruct (H s eq_refl)|].
    split; [done|]. intros s' [? ?]. by apply (Hd s').
  - split; [by right; right|].
    split; [split; [done|]; intros H; by apply H1 in H|].
    split; [split; [done|]; intros H; by apply H2 in H|].
    split.
    { split; [|done]. intros _ s ->. split; intros Hs.
      - by destruct (proj2 H1); [exists s|].
      - by destruct (proj2 H2); [exists s|]. }
    split; [done|]. intros s' [? ?]. by apply (Hd s').
Qed.

(** C10. The tier lambda of [create_geographic_chart] and the tier lambda of
    [load_data] give every state value the same label. *)
Theorem chart_tier_eq_priority_tier (x : option string) :
  chart_tier x = priority_tier x.
Proof.
  unfold chart_tier, priority_tier.
  by destruct (py_in x TIER_1_STATES), (py_in x TIER_2_STATES).
Qed.

(** ** Query generator *)

Lemma str_app_assoc (s1 s2 s3 : string) :
  (s1 +:+ s2) +:+ s3 = s1 +:+ s2 +:+ s3.
Proof.
  induction s1 as [|c s1 IH]; [done|].
  change (String c ((s1 +:+ s2) +:+ s3) = String c (s1 +:+ s2 +:+ s3)).
  by rewrite IH.
Qed.

Lemma str_infix_here (s post : string) : str_infix s (s +:+ post).
Proof. by exists "", post. Qed.

Lemma str_infix_later (s t pre : string) :
  str_infix s t → str_infix s (pre +:+ t).
Proof.
  intros (pre' & post & ->). exists (pre +:+ pre'), post.
  by rewrite str_app_assoc.
Qed.

(** The query stored by [load_data] is the generator's value on the row. *)
Lemma load_row_query (r : CsvRow) :
  Perplexity_Query (load_row r) = generate_query (load_row r).
Proof. reflexivity. Qed.

(** C9. The query is a function of the employer name, the EIN and the state
    of the lead alone: two leads that agree on the three columns (two
    evaluations on the same lead among them) get the same string, character
    for character, and the string contains the printed employer name, the
    decimal EIN and the printed state. *)
Theorem generate_query_deterministic (l1 l2 : Lead) :
  Employer_Name l1 = Employer_Name l2 →
  EIN l1 = EIN l2 →
  State l1 = State l2 →
  generate_query l1 = generate_query l2
  ∧ str_infix (py_str (Employer_Name l1)) (generate_query l1)
  ∧ str_infix (py_str_int (EIN l1)) (generate_query l1)
  ∧ str_infix (py_str (State l1)) (generate_query l1).
Proof.
  intros Hn He Hs. unfold generate_query, perplexity_query.
  rewrite Hn, He, Hs. split; [done|].
  split; [|split].
  - apply str_infix_later, str_infix_here.
  - do 3 apply str_infix_later. apply str_infix_here.
  - do 5 apply str_infix_later. apply str_infix_here.
Qed.

Lemma generate_query_deterministic_witness :
  generate_query lead_A = generate_query lead_A_small
  ∧ str_infix "A" (generate_query lead_A)
  ∧ str_infix "11" (generate_query lead_A)
  ∧ str_infix "MA" (generate_query lead_A).
Proof.
  apply (generate_query_deterministic lead_A lead_A_small); reflexivity.
Defined.

Example scenario_query :
  generate_query lead_A =
  "Find the employee benefits decision-maker (HR Director, Benefits Manager, or CFO) for A (EIN: 11) in MA. Include their name, title, email, and phone if available."
  ∧ Perplexity_Query lead_A = generate_query lead_A.
Proof. split; reflexivity. Qed.

(** ** Paginator *)

Lemma ceil_quotient_div (n k : Z) : ceil_quotient n k = - ((- n) `div` k).
Proof.
  unfold ceil_quotient, Qround.Qceiling. f_equal.
  rewrite Qround.Zdiv_Qdiv. apply Qround.Qfloor_comp.
  rewrite QArith_base.inject_Z_opp. unfold QArith_base.Qdiv.
  unfold QArith_base.Qeq, QArith_base.Qopp, QArith_base.Qmult. simpl. lia.
Qed.

(** C6. For a page size [k > 0] and [n >= 0] items the page count of line
    304 is the ceiling of [n / k]; for no items it is zero. *)
Theorem total_pages_ceil (n k : Z) :
  0 ≤ n → 0 < k →
  total_pages n k = ceil_quotient n k ∧ total_pages 0 k = 0.
Proof.
  intros Hn Hk. rewrite ceil_quotient_div. unfold total_pages.
  split.
  - Z.div_mod_to_equations. nia.
  - Z.div_mod_to_equations. nia.
Qed.

Lemma total_pages_ceil_witness :
  total_pages 51 leads_per_page = ceil_quotient 51 leads_per_page
  ∧ total_pages 0 leads_per_page = 0.
Proof.
  apply (total_pages_ceil 51 leads_per_page); unfold leads_per_page; lia.
Defined.

(** The ceiling [m] of [n / k] is the integer with [m - 1 < n / k <= m]. *)
Lemma ceil_quotient_bounds (n k : Z) :
  0 < k → (ceil_quotient n k - 1) * k < n ≤ ceil_quotient n k * k.
Proof.
  intros Hk. rewrite ceil_quotient_div. Z.div_mod_to_equations. nia.
Qed.

(** A slice with bounds [0 <= a <= b] is [b - a] rows from row [a] on, as
    many as there are. *)
Lemma iloc_slice_nonneg {A} (l : list A) (a b : Z) :
  0 ≤ a ≤ b →
  iloc_slice l a b = take (Z.to_nat (b - a)) (drop (Z.to_nat a) l).
Proof.
  intros Hab. unfold iloc_slice, slice_bound.
  rewrite !(proj2 (Z.ltb_ge _ 0)) by lia.
  destruct (decide (Z.of_nat (length l) ≤ a)) as [Hge|Hlt].
  - rewrite !drop_ge by lia. by rewrite !take_nil.
  - rewrite (Z.min_l a) by lia.
    destruct (decide (b ≤ Z.of_nat (length l))) as [Hb|Hb].
    + by rewrite (Z.min_l b) by lia.
    + rewrite (Z.min_r b) by lia.
      rewrite !take_ge; [done| |]; rewrite length_drop; lia.
Qed.

Lemma page_slice_take_drop {A} (l : list A) (k p : Z) :
  0 < k → 1 ≤ p →
  page_slice l k p = take (Z.to_nat k) (drop (Z.to_nat ((p - 1) * k)) l).
Proof.
  intros Hk Hp. unfold page_slice.
  rewrite iloc_slice_nonneg by nia. do 2 f_equal. lia.
Qed.

Lemma page_slice_concat {A} (l : list A) (k : Z) (n : nat) :
  0 < k →
  concat ((λ p, page_slice l k p) <$> seqZ 1 (Z.of_nat n))
  = take (Z.to_nat (Z.of_nat n * k)) l.
Proof.
  intros Hk. induction n as [|n IH].
  - by rewrite take_0.
  - rewrite seqZ_S, fmap_app, concat_app, IH. simpl.
    rewrite app_nil_r, page_slice_take_drop by lia.
    replace (1 + Z.of_nat n - 1) with (Z.of_nat n) by lia.
    rewrite take_take_drop. f_equal. nia.
Qed.

Lemma total_pages_bounds (n k : Z) :
  0 < k → (total_pages n k - 1) * k < n ≤ total_pages n k * k.
Proof. intros Hk. unfold total_pages. Z.div_mod_to_equations. nia. Qed.

(** The pages 1 to [total_pages] of a sequence, one after the other, are the
    sequence. *)
Lemma page_slice_all {A} (L : list A) (k : Z) :
  0 < k →
  concat ((λ p, page_slice L k p)
            <$> seqZ 1 (total_pages (Z.of_nat (length L)) k)) = L.
Proof.
  intros Hk. assert (Hb := total_pages_bounds (Z.of_nat (length L)) k Hk).
  assert (0 ≤ total_pages (Z.of_nat (length L)) k) as Hn by nia.
  rewrite <- (Z2Nat.id _ Hn), page_slice_concat by done.
  apply take_ge. nia.
Qed.

(** C5. For a page size [k > 0]: every page [p >= 1] has at most [k] rows,
    the pages 1 to [total_pages] one after the other are the sequence
    itself, and a page after the last one is empty. *)
Theorem page_slice_pages {A} (L : list A) (k : Z) :
  0 < k →
  (∀ p, 1 ≤ p → Z.of_nat (length (page_slice L k p)) ≤ k)
  ∧ concat ((λ p, page_slice L k p)
              <$> seqZ 1 (total_pages (Z.of_nat (length L)) k)) = L
  ∧ (∀ p, total_pages (Z.of_nat (length L)) k < p → page_slice L k p = []).
Proof.
  intros Hk. assert (Hb := total_pages_bounds (Z.of_nat (length L)) k Hk).
  split; [|split].
  - intros p Hp. rewrite page_slice_take_drop, length_take by done. lia.
  - by apply page_slice_all.
  - intros p Hp.
    assert (1 ≤ p) by nia.
    rewrite page_slice_take_drop by done.
    rewrite drop_ge; [by rewrite take_nil|]. nia.
Qed.

Lemma page_slice_pages_witness :
  (∀ p, 1 ≤ p → Z.of_nat (length (page_slice [lead_A; lead_B; lead_C] 2 p)) ≤ 2)
  ∧ concat ((λ p, page_slice [lead_A; lead_B; lead_C] 2 p)
              <$> seqZ 1 (total_pages 3 2)) = [lead_A; lead_B; lead_C]
  ∧ (∀ p, total_pages 3 2 < p → page_slice [lead_A; lead_B; lead_C] 2 p = []).
Proof. apply (page_slice_pages [lead_A; lead_B; lead_C] 2). lia. Defined.

(** The table of [main]: with at least one filtered lead the pages of the
    number input are slices of [leads_per_page] rows of the displayed
    columns; with none there is no table. *)
Lemma df_page_spec (df_filtered : DataFrame) (page : Z) :
  df_page df_filtered page =
    match df_filtered with
    | [] => None
    | _ => Some (page_slice (display_cols <$> df_filtered) leads_per_page page)
    end.
Proof.
  unfold df_page.
  assert (Hb := total_pages_bounds (Z.of_nat (length df_filtered))
                  leads_per_page eq_refl).
  destruct df_filtered as [|r df]; [done|].
  rewrite (proj2 (Z.ltb_lt _ _)); [done|].
  simpl length in *. unfold leads_per_page in *. lia.
Qed.

(** The pages of the table hold the displayed columns of every filtered
    lead, in the order of the filtered frame. *)
Lemma df_page_concat (df_filtered : DataFrame) :
  concat ((λ p, default [] (df_page df_filtered p))
            <$> seqZ 1 (total_pages (Z.of_nat (length df_filtered))
                          leads_per_page))
  = display_cols <$> df_filtered.
Proof.
  pose proof (page_slice_all (display_cols <$> df_filtered) leads_per_page
                eq_refl) as Hcat.
  rewrite length_fmap in Hcat. etrans; [|exact Hcat].
  f_equal. apply list_fmap_ext. intros. rewrite df_page_spec.
  destruct df_filtered; [|done]. simpl.
  unfold page_slice, iloc_slice. by rewrite drop_nil, take_nil.
Qed.

(** ** Stable sorting *)

Lemma stable_sort_cons {A} (le : A → A → bool) (x : A) (l : list A) :
  stable_sort le (x :: l) = insert_sorted le x (stable_sort le l).
Proof. reflexivity. Qed.

Section stable_sort_facts.
Context {A : Type} (le : A → A → bool).

Lemma insert_sorted_perm (x : A) (l : list A) :
  insert_sorted le x l ≡ₚ x :: l.
Proof.
  induction l as [|y l IH]; simpl; [done|].
  destruct (le x y); [done|]. by rewrite IH, Permutation_swap.
Qed.

Lemma stable_sort_perm (l : list A) : stable_sort le l ≡ₚ l.
Proof.
  induction l as [|x l IH]; simpl; [done|].
  by rewrite insert_sorted_perm, IH.
Qed.

End stable_sort_facts.

Section argsort_facts.
Context {A : Type} (le : A → A → bool).

Lemma insert_sorted_snd (x : nat * A) (d : list (nat * A)) :
  snd <$> insert_sorted (λ u v, le u.2 v.2) x d
  = insert_sorted le x.2 (snd <$> d).
Proof.
  induction d as [|y d IH]; [done|].
  rewrite fmap_cons. cbn [insert_sorted].
  destruct (le x.2 y.2); rewrite !fmap_cons; [done|]. by rewrite IH.
Qed.

Lemma stable_sort_snd (d : list (nat * A)) :
  snd <$> stable_sort (λ u v, le u.2 v.2) d = stable_sort le (snd <$> d).
Proof.
  induction d as [|x d IH]; [done|].
  by rewrite fmap_cons, !stable_sort_cons, insert_sorted_snd, IH.
Qed.

Lemma imap_pair_snd (f : nat → nat) (l : list A) :
  snd <$> imap (λ n a, (f n, a)) l = l.
Proof.
  revert f. induction l as [|x l IH]; intros f; [done|].
  rewrite imap_cons, fmap_cons. f_equal. apply (IH (f ∘ S)).
Qed.

Lemma imap_pair_fst (k : nat) (l : list A) :
  fst <$> imap (λ n a, (k + n, a)%nat) l = seq k (length l).
Proof.
  revert k. induction l as [|x l IH]; intros k; [done|].
  rewrite imap_cons, fmap_cons. cbn [length seq fst]. f_equal; [lia|].
  rewrite <- (IH (S k)). f_equal. apply imap_ext. intros; simpl; f_equal; lia.
Qed.

Lemma argsort_snd (l : list A) : snd <$> argsort le l = stable_sort le l.
Proof.
  unfold argsort. rewrite stable_sort_snd. f_equal.
  apply (imap_pair_snd id).
Qed.

Lemma argsort_perm (l : list A) : argsort le l ≡ₚ imap pair l.
Proof. apply stable_sort_perm. Qed.

(** The positions of the sorted rows are the positions of the input. *)
Lemma argsort_positions (l : list A) :
  fst <$> argsort le l ≡ₚ seq 0 (length l).
Proof. rewrite argsort_perm. by rewrite <- (imap_pair_fst 0). Qed.
End argsort_facts.

Lemma StronglySorted_lookup_lt {A} (R : relation A) (s : list A) (i j : nat)
    (x y : A) :
  StronglySorted R s → s !! i = Some x → s !! j = Some y → (i < j)%nat →
  R x y.
Proof.
  intros Hs. revert i j. induction Hs as [|z s Hs IH Hz]; intros i j Hi Hj Hij.
  - by rewrite lookup_nil in Hi.
  - destruct j as [|j]; [lia|]. destruct i as [|i]; simpl in *.
    + simplify_eq. rewrite Forall_forall in Hz. apply Hz.
      by eapply list_elem_of_lookup_2.
    + apply (IH i j); [done|done|lia].
Qed.

Section stability.
Context {A : Type} (le : A → A → bool).
Context (le_total : ∀ x y, le x y = true ∨ le y x = true).
Context (le_trans : ∀ x y z, le x y = true → le y z = true → le x z = true).

Let le' : nat * A → nat * A → bool := λ u v, le u.2 v.2.

Lemma insert_sorted_before (x : nat * A) (d : list (nat * A)) :
  StronglySorted (stable_before le) d →
  Forall (λ y, (x.1 < y.1)%nat) d →
  StronglySorted (stable_before le) (insert_sorted le' x d).
Proof.
  induction 1 as [|y d Hd IH Hy]; intros Hx.
  - repeat constructor.
  - apply Forall_cons in Hx as [Hxy Hx]. cbn [insert_sorted].
    unfold le' at 1. destruct (le x.2 y.2) eqn:Hle.
    + constructor; [by constructor|]. constructor; [by split|].
      apply Forall_forall. intros z Hz. rewrite Forall_forall in Hy, Hx.
      destruct (Hy z Hz) as [Hyz _].
      split; [by eapply le_trans|]. intros _. by apply Hx.
    + constructor; [by apply IH|].
      rewrite insert_sorted_perm. constructor; [|done].
      split; [|by rewrite Hle]. destruct (le_total y.2 x.2); congruence.
Qed.

Lemma stable_sort_before (d : list (nat * A)) :
  StronglySorted (λ u v, (u.1 < v.1)%nat) d →
  StronglySorted (stable_before le) (stable_sort le' d).
Proof.
  induction 1 as [|x d Hd IH Hx]; [constructor|].
  rewrite stable_sort_cons. apply insert_sorted_before; [done|].
  by rewrite stable_sort_perm.
Qed.

Lemma imap_pair_increasing (k : nat) (l : list A) :
  StronglySorted (λ u v : nat * A, (u.1 < v.1)%nat)
    (imap (λ n a, ((k + n)%nat, a)) l).
Proof.
  revert k. induction l as [|x l IH]; intros k; [constructor|].
  rewrite imap_cons. constructor.
  - rewrite (imap_ext _ (λ n a, ((S k + n)%nat, a))); [apply IH|].
    intros; simpl; f_equal; lia.
  - apply Forall_forall. intros [n a] Hin.
    apply elem_of_lookup_imap in Hin as (i & y & Heq & _).
    simpl in *. simplify_eq. lia.
Qed.

Lemma argsort_sorted (l : list A) :
  StronglySorted (stable_before le) (argsort le l).
Proof. apply stable_sort_before, (imap_pair_increasing 0). Qed.

Lemma argsort_precedes (l : list A) (p q : nat) (u v : nat * A) :
  argsort le l !! p = Some u → argsort le l !! q = Some v →
  stable_before le u v → (p < q)%nat.
Proof.
  intros Hp Hq [Huv Hpos].
  destruct (lt_eq_lt_dec p q) as [[Hlt|Heq]|Hgt]; [done| |].
  - subst q. simplify_eq. specialize (Hpos Huv). lia.
  - destruct (StronglySorted_lookup_lt _ _ _ _ _ _ (argsort_sorted l) Hq Hp Hgt)
      as [Hvu Hpos']. specialize (Hpos Hvu). specialize (Hpos' Huv). lia.
Qed.

Lemma argsort_lookup (l : list A) (i : nat) (a : A) :
  l !! i = Some a → ∃ p, argsort le l !! p = Some (i, a).
Proof.
  intros Hi. apply list_elem_of_lookup_1. rewrite argsort_perm.
  apply elem_of_lookup_imap. eauto.
Qed.

(** Every stable sort returns the list of [argsort]. *)
Lemma argsort_unique (l : list A) (d : list (nat * A)) :
  d ≡ₚ imap pair l → StronglySorted (stable_before le) d →
  d = argsort le l.
Proof.
  intros Hperm Hd.
  assert (AntiSymm eq (stable_before le)).
  { intros u v [Huv H1] [Hvu H2].
    specialize (H1 Hvu). specialize (H2 Huv). lia. }
  apply (StronglySorted_unique (stable_before le)); [done| |].
  - apply argsort_sorted.
  - by rewrite Hperm, argsort_perm.
Qed.
End stability.

(** ** Ranking engine *)

(** The order of the two sort keys is total and transitive. *)
Lemma compare_na_last_opp (x y : option Z) :
  compare_na_last y x = CompOpp (compare_na_last x y).
Proof. destruct x, y; simpl; try done. apply Z.compare_antisym. Qed.

Lemma lexsort_compare_opp (x y : Lead * option Z) :
  lexsort_compare y x = CompOpp (lexsort_compare x y).
Proof.
  unfold lexsort_compare. rewrite (compare_na_last_opp x.2 y.2).
  destruct (compare_na_last x.2 y.2); simpl; try done.
  apply Z.compare_antisym.
Qed.

Lemma lexsort_le_total (x y : Lead * option Z) :
  lexsort_le x y = true ∨ lexsort_le y x = true.
Proof.
  unfold lexsort_le. rewrite (lexsort_compare_opp x y).
  destruct (lexsort_compare x y); simpl; auto.
Qed.

(** [lexsort_le] in terms of the two keys. *)
Lemma lexsort_le_spec (x y : Lead * option Z) :
  lexsort_le x y = true ↔
    compare_na_last x.2 y.2 = Lt
    ∨ (compare_na_last x.2 y.2 = Eq ∧ Participants y.1 ≤ Participants x.1).
Proof.
  unfold lexsort_le, lexsort_compare.
  destruct (compare_na_last x.2 y.2).
  - destruct (Z.compare_spec (Participants y.1) (Participants x.1));
      split; try done; try (intros; right; split; [done|lia]).
    intros [?|[_ ?]]; [done|lia].
  - split; [by left|done].
  - split; [done|]. by intros [?|[? _]].
Qed.

Lemma compare_na_last_trans (c : comparison) (x y z : option Z) :
  compare_na_last x y = c → compare_na_last y z = c → compare_na_last x z = c.
Proof.
  destruct x, y, z; simpl; try congruence.
  destruct c;
    rewrite ?Z.compare_eq_iff, ?Z.compare_lt_iff, ?Z.compare_gt_iff; lia.
Qed.

Lemma compare_na_last_eq (x y : option Z) :
  compare_na_last x y = Eq ↔ x = y.
Proof.
  destruct x, y; simpl; try done.
  rewrite Z.compare_eq_iff. split; [by intros ->|by intros [= ->]].
Qed.

Lemma lexsort_le_trans (x y z : Lead * option Z) :
  lexsort_le x y = true → lexsort_le y z = true → lexsort_le x z = true.
Proof.
  rewrite !lexsort_le_spec.
  intros [Hxy|[Hxy Hp]] [Hyz|[Hyz Hq]].
  - left. by eapply compare_na_last_trans.
  - left. apply compare_na_last_eq in Hyz. by rewrite <- Hyz.
  - left. apply compare_na_last_eq in Hxy. by rewrite Hxy.
  - right. split; [by eapply compare_na_last_trans|lia].
Qed.

Lemma Tier_Rank_precedes (a b : Lead) :
  tier_precedes (Priority_Tier a) (Priority_Tier b) →
  compare_na_last (Tier_Rank a) (Tier_Rank b) = Lt.
Proof.
  unfold Tier_Rank. intros [[-> ->]|[[-> ->]|[-> ->]]]; reflexivity.
Qed.

Lemma rank_perm (df : DataFrame) : rank df ≡ₚ df.
Proof.
  unfold rank, df_sorted.
  rewrite argsort_snd, stable_sort_perm.
  unfold with_Tier_Rank. rewrite <- list_fmap_compose.
  apply reflexive_eq, list_fmap_id.
Qed.

Lemma rank_indexer_perm (df : DataFrame) :
  rank_indexer df ≡ₚ seq 0 (length df).
Proof.
  unfold rank_indexer, df_sorted. rewrite argsort_positions.
  unfold with_Tier_Rank. by rewrite length_fmap.
Qed.

(** The sorted frame of [get_top_priority_leads] is the one list of the
    positioned rows in the order of a stable sort. *)
Lemma df_sorted_unique (df : DataFrame)
    (d : list (nat * (Lead * option Z))) :
  d ≡ₚ imap pair (with_Tier_Rank df) →
  StronglySorted (stable_before lexsort_le) d →
  d = df_sorted df.
Proof. apply argsort_unique; [apply lexsort_le_total|apply lexsort_le_trans]. Qed.

(** The ranked frame is the input taken at the positions of the indexer. *)
Lemma rank_take (df : DataFrame) (p i : nat) :
  rank_indexer df !! p = Some i → rank df !! p = df !! i.
Proof.
  unfold rank_indexer, rank. rewrite !list_lookup_fmap.
  destruct (df_sorted df !! p) as [[i' [r t]]|] eqn:Hp; [|done].
  simpl. intros [= ->].
  assert (Hin : (i, (r, t)) ∈ imap pair (with_Tier_Rank df)).
  { rewrite <- argsort_perm. by eapply list_elem_of_lookup_2. }
  apply elem_of_lookup_imap in Hin as (i' & x & [= <- <-] & Hx).
  unfold with_Tier_Rank in Hx. rewrite list_lookup_fmap in Hx.
  destruct (df !! i) as [r'|]; [|done]. by simplify_eq/=.
Qed.

(** An input position has one place in the output. *)
Lemma rank_indexer_inj (df : DataFrame) (p q i : nat) :
  rank_indexer df !! p = Some i → rank_indexer df !! q = Some i → p = q.
Proof.
  apply NoDup_lookup. rewrite rank_indexer_perm. apply NoDup_seq.
Qed.

(** Rows [a] at position [i] and [b] at position [j] of the input, with [a]
    before [b] in the order of a stable sort by the keys, are in this order
    in the output. *)
Lemma rank_precedes (df : DataFrame) (i j : nat) (a b : Lead) :
  df !! i = Some a → df !! j = Some b →
  stable_before lexsort_le (i, (a, Tier_Rank a)) (j, (b, Tier_Rank b)) →
  ∃ p q, rank_indexer df !! p = Some i ∧ rank_indexer df !! q = Some j
         ∧ rank df !! p = Some a ∧ rank df !! q = Some b ∧ (p < q)%nat.
Proof.
  intros Hi Hj Hb.
  destruct (argsort_lookup lexsort_le (with_Tier_Rank df) i (a, Tier_Rank a))
    as [p Hp]; [by unfold with_Tier_Rank; rewrite list_lookup_fmap, Hi|].
  destruct (argsort_lookup lexsort_le (with_Tier_Rank df) j (b, Tier_Rank b))
    as [q Hq]; [by unfold with_Tier_Rank; rewrite list_lookup_fmap, Hj|].
  exists p, q. unfold rank_indexer, rank, df_sorted.
  rewrite !list_lookup_fmap, Hp, Hq. repeat split; try done.
  eapply (argsort_precedes lexsort_le lexsort_le_total lexsort_le_trans); eauto.
Qed.

(** C1. The ranking is stable.  For rows [a] at position [i] and [b] at a
    later position [j] of the input, with the same priority tier and the same
    participant count, the output has [a] (input position [i]) at a position
    [p] and [b] (input position [j]) at a later position [q]; the indexer
    lists every input position once, so [p] and [q] are the places of the
    two rows in the output. *)
Theorem rank_stable (df : DataFrame) (i j : nat) (a b : Lead) :
  df !! i = Some a → df !! j = Some b → (i < j)%nat →
  Priority_Tier a = Priority_Tier b →
  Participants a = Participants b →
  rank_indexer df ≡ₚ seq 0 (length df)
  ∧ ∃ p q, rank_indexer df !! p = Some i ∧ rank_indexer df !! q = Some j
           ∧ rank df !! p = Some a ∧ rank df !! q = Some b ∧ (p < q)%nat.
Proof.
  intros Hi Hj Hij Ht Hp. split; [apply rank_indexer_perm|].
  apply rank_precedes; [done..|].
  split; [|done]. apply lexsort_le_spec. right. simpl.
  split; [|lia]. apply compare_na_last_eq. unfold Tier_Rank. by rewrite Ht.
Qed.

Lemma rank_stable_witness :
  rank_indexer two_ties ≡ₚ seq 0 (length two_ties)
  ∧ ∃ p q, rank_indexer two_ties !! p = Some 0%nat
           ∧ rank_indexer two_ties !! q = Some 2%nat
           ∧ rank two_ties !! p = Some lead_B
           ∧ rank two_ties !! q = Some lead_B ∧ (p < q)%nat.
Proof.
  apply (rank_stable two_ties 0 2 lead_B lead_B); try reflexivity. lia.
Defined.

(** C3. The ranking orders by tier, then by participants.  For rows [a] and
    [b] anywhere in the input, [a] is placed before [b] in the output when
    they have the same tier and [a] has strictly more participants, and also
    when the tier of [a] comes first (Tier 1 before Tier 2 before Tier 3). *)
Theorem rank_ordered (df : DataFrame) (i j : nat) (a b : Lead) :
  df !! i = Some a → df !! j = Some b →
  (Priority_Tier a = Priority_Tier b ∧ Participants b < Participants a)
  ∨ tier_precedes (Priority_Tier a) (Priority_Tier b) →
  ∃ p q, rank_indexer df !! p = Some i ∧ rank_indexer df !! q = Some j
         ∧ rank df !! p = Some a ∧ rank df !! q = Some b ∧ (p < q)%nat.
Proof.
  intros Hi Hj Hkey. apply rank_precedes; [done..|].
  split; rewrite lexsort_le_spec; simpl.
  - destruct Hkey as [[Ht Hp]|Ht].
    + right. split; [|lia]. apply compare_na_last_eq. unfold Tier_Rank.
      by rewrite Ht.
    + left. by apply Tier_Rank_precedes.
  - rewrite (compare_na_last_opp (Tier_Rank a) (Tier_Rank b)).
    destruct Hkey as [[Ht Hp]|Ht].
    + intros [Hlt|[_ Hle]]; [|lia].
      assert (compare_na_last (Tier_Rank a) (Tier_Rank b) = Eq) as Heq
        by (apply compare_na_last_eq; unfold Tier_Rank; by rewrite Ht).
      by rewrite Heq in Hlt.
    + rewrite (Tier_Rank_precedes a b Ht). simpl. by intros [?|[? _]].
Qed.

Lemma rank_ordered_witness :
  (∃ p q, rank_indexer unranked !! p = Some 3%nat
          ∧ rank_indexer unranked !! q = Some 2%nat
          ∧ rank unranked !! p = Some lead_D
          ∧ rank unranked !! q = Some lead_A ∧ (p < q)%nat)
  ∧ (∃ p q, rank_indexer unranked !! p = Some 1%nat
            ∧ rank_indexer unranked !! q = Some 0%nat
            ∧ rank unranked !! p = Some lead_B
            ∧ rank unranked !! q = Some lead_C ∧ (p < q)%nat).
Proof.
  split.
  - apply (rank_ordered unranked 3 2 lead_D lead_A); [reflexivity..|].
    left. split; [reflexivity|]. simpl. lia.
  - apply (rank_ordered unranked 1 0 lead_B lead_C); [reflexivity..|].
    right. right. right. split; reflexivity.
Defined.

Lemma head_take {A} (n : Z) (l : list A) :
  0 ≤ n → head n l = take (Z.to_nat n) l.
Proof.
  intros Hn. unfold head. rewrite iloc_slice_nonneg by lia.
  by rewrite Z.sub_0_r.
Qed.

(** C8. For [n >= 0] the top-N leads are the first [n] rows of the ranked
    frame, which holds the rows of the input; with no more than [n] leads in
    the input they are the whole ranked frame. *)
Theorem top_n_truncates (df : DataFrame) (n : Z) :
  0 ≤ n →
  get_top_priority_leads df n = take (Z.to_nat n) (rank df)
  ∧ rank df ≡ₚ df
  ∧ (Z.of_nat (length df) ≤ n → get_top_priority_leads df n = rank df).
Proof.
  intros Hn. unfold get_top_priority_leads. rewrite head_take by done.
  split; [done|]. split; [apply rank_perm|].
  intros Hlen. apply take_ge. rewrite rank_perm. lia.
Qed.

Lemma top_n_truncates_witness :
  get_top_priority_leads unranked 2 = take 2 (rank unranked)
  ∧ get_top_priority_leads unranked top_n = rank unranked.
Proof.
  split.
  - apply (top_n_truncates unranked 2). lia.
  - apply (top_n_truncates unranked top_n); unfold top_n; simpl; lia.
Defined.

(** ** Filter pipeline *)

Lemma boolean_index_true (df : DataFrame) :
  boolean_index (λ _, true) df = df.
Proof.
  unfold boolean_index. induction df as [|r df IH]; [done|].
  by rewrite filter_cons_True, IH.
Qed.

Lemma boolean_index_and (m1 m2 : Lead → bool) (df : DataFrame) :
  boolean_index m2 (boolean_index m1 df) = boolean_index (λ r, m1 r && m2 r) df.
Proof.
  unfold boolean_index. rewrite list_filter_filter.
  apply list_filter_iff. intros r. rewrite andb_True. tauto.
Qed.

Lemma boolean_index_if (c : bool) (m : Lead → bool) (df : DataFrame) :
  (if c then boolean_index m df else df)
  = boolean_index (λ r, if c then m r else true) df.
Proof. destruct c; [done|]. by rewrite boolean_index_true. Qed.

Lemma boolean_index_idemp (m : Lead → bool) (df : DataFrame) :
  boolean_index m (boolean_index m df) = boolean_index m df.
Proof. unfold boolean_index. by apply list_filter_filter_l. Qed.

Lemma boolean_index_ext (m1 m2 : Lead → bool) (df : DataFrame) :
  (∀ r, m1 r = m2 r) → boolean_index m1 df = boolean_index m2 df.
Proof.
  intros H. unfold boolean_index. apply list_filter_iff. intros r.
  by rewrite H.
Qed.

Lemma boolean_index_none (m : Lead → bool) (df : DataFrame) :
  (∀ r, m r = false) → boolean_index m df = [].
Proof.
  intros H. unfold boolean_index. induction df as [|r df IH]; [done|].
  rewrite filter_cons_False; [done|]. rewrite H. by intros [].
Qed.

(** The steps of [apply_filters] are one pass with the conjunction of the
    criteria. *)
Lemma apply_filters_one_pass (E : ReEngine) (df : DataFrame)
    (rq : FilterRequest) :
  apply_filters E df rq = m ← request_mask E rq; Returns (boolean_index m df).
Proof.
  unfold apply_filters, request_mask, search_mask, filter_participants.
  rewrite !boolean_index_if, !boolean_index_and.
  destruct (str_truthy (search_employer rq));
    [destruct (str_contains E (search_employer rq) false) as [m1|e]; [|done]|];
    (destruct (str_truthy (search_ein rq));
     [destruct (str_contains E (search_ein rq) true) as [m2|e]; [|done]|]);
    simpl; rewrite ?boolean_index_and; f_equal; apply boolean_index_ext;
    intros r; rewrite ?andb_true_r, ?andb_assoc; done.
Qed.

(** C4. Filtering is idempotent: filtering the result of a filter again with
    the same request gives the result of the first filter (and a request
    whose search term raises [re.error] raises it in both). *)
Theorem apply_filters_idempotent (E : ReEngine) (L : DataFrame)
    (R : FilterRequest) :
  (L' ← apply_filters E L R; apply_filters E L' R) = apply_filters E L R.
Proof.
  rewrite (apply_filters_one_pass E L R).
  destruct (request_mask E R) as [m|e] eqn:Hm; [|done]. simpl.
  rewrite apply_filters_one_pass, Hm. simpl.
  by rewrite boolean_index_idemp.
Qed.

Example scenario_filter_twice :
  apply_filters plain_re [lead_A; lead_C] (range_only 4000 10000)
  = Returns [lead_A; lead_C].
Proof. by vm_compute. Qed.

(** A filter that returns is a fixed point of its result. *)
Lemma apply_filters_fixed (E : ReEngine) (L L' : DataFrame)
    (R : FilterRequest) :
  apply_filters E L R = Returns L' → apply_filters E L' R = Returns L'.
Proof.
  rewrite !apply_filters_one_pass.
  destruct (request_mask E R) as [m|e]; [|done]. simpl.
  intros [= <-]. by rewrite boolean_index_idemp.
Qed.

(** A request that constrains nothing returns the frame as it is. *)
Lemma apply_filters_unconstrained (E : ReEngine) (L : DataFrame) (lo hi : Z) :
  (∀ r, r ∈ L → lo ≤ Participants r ≤ hi) →
  apply_filters E L (range_only lo hi) = Returns L.
Proof.
  intros H. rewrite apply_filters_one_pass. simpl. f_equal.
  unfold boolean_index. induction L as [|r L IH]; [done|].
  rewrite filter_cons_True, IH; [done| |].
  - intros r' Hr'. apply H. by right.
  - specialize (H r (list_elem_of_here _ _)).
    rewrite !andb_true_r. apply andb_prop_intro.
    split; apply Is_true_true; lia.
Qed.

Lemma request_mask_range (E : ReEngine) (rq : FilterRequest)
    (m : Lead → bool) (r : Lead) :
  request_mask E rq = Returns m → m r = true →
  (participant_range rq).1 ≤ Participants r ≤ (participant_range rq).2.
Proof.
  unfold request_mask.
  destruct (search_mask E (search_employer rq) false) as [m1|]; [|done].
  destruct (search_mask E (search_ein rq) true) as [m2|]; [|done].
  simpl. intros [= <-]. rewrite !andb_true_iff. lia.
Qed.

Lemma search_mask_returns (E : ReEngine) (term : string) (case : bool) :
  term_compiles E term case → ∃ m, search_mask E term case = Returns m.
Proof.
  unfold search_mask, str_contains. intros [->|[p Hp]]; [by eexists|].
  destruct (str_truthy term); [|by eexists]. rewrite Hp. by eexists.
Qed.

(** With a search term in the employer box that the engine does not
    compile, the filter raises, whatever the frame and the other criteria. *)
Lemma apply_filters_raises (E : ReEngine) (df : DataFrame)
    (rq : FilterRequest) :
  search_employer rq ≠ "" →
  re_compile E (search_employer rq) true = None →
  apply_filters E df rq = Raises re_error.
Proof.
  intros Hne Hc. rewrite apply_filters_one_pass.
  unfold request_mask, search_mask, str_contains. simpl negb. rewrite Hc.
  by destruct (search_employer rq).
Qed.

(** The reversed range of lines 233-236.  With a participants range whose
    minimum exceeds its maximum the participants mask leaves no row and
    does not raise, and the filter returns no row whenever it returns; it
    returns when each search term is empty or compiles as a regular
    expression. *)
Theorem reversed_range_empty (E : ReEngine) (df : DataFrame)
    (rq : FilterRequest) :
  (participant_range rq).2 < (participant_range rq).1 →
  filter_participants (participant_range rq) df = []
  ∧ (∀ df', apply_filters E df rq = Returns df' → df' = [])
  ∧ (term_compiles E (search_employer rq) false →
     term_compiles E (search_ein rq) true →
     apply_filters E df rq = Returns []).
Proof.
  intros Hrev.
  assert (Hnone : ∀ m, request_mask E rq = Returns m → boolean_index m df = []).
  { intros m Hm. apply boolean_index_none. intros r.
    destruct (m r) eqn:Hr; [|done].
    pose proof (request_mask_range E rq m r Hm Hr). lia. }
  split; [|split].
  - apply boolean_index_none. intros r. apply andb_false_iff.
    rewrite Z.leb_gt, Z.leb_gt. lia.
  - intros df'. rewrite apply_filters_one_pass.
    destruct (request_mask E rq) as [m|e]; [|done].
    simpl. intros [= <-]. by apply Hnone.
  - intros H1 H2. rewrite apply_filters_one_pass. unfold request_mask in *.
    destruct (search_mask_returns E _ _ H1) as [m1 Hm1].
    destruct (search_mask_returns E _ _ H2) as [m2 Hm2].
    rewrite Hm1, Hm2 in *. simpl. f_equal. by eapply Hnone.
Qed.

Lemma reversed_range_empty_witness :
  filter_participants (10000, 4000) [lead_A; lead_B; lead_C] = []
  ∧ apply_filters plain_re [lead_A; lead_B; lead_C] reversed_request
    = Returns [].
Proof.
  destruct (reversed_range_empty plain_re [lead_A; lead_B; lead_C]
              reversed_request) as (H1 & _ & H3).
  - simpl. lia.
  - split; [exact H1|]. apply H3; right; by eexists.
Defined.

(** With a search that compiles every term, as the search for a substring
    does, the filter returns the empty frame on every reversed range. *)
Lemma reversed_range_returns (E : ReEngine) (df : DataFrame)
    (rq : FilterRequest) :
  (∀ term ignorecase, is_Some (re_compile E term ignorecase)) →
  (participant_range rq).2 < (participant_range rq).1 →
  apply_filters E df rq = Returns [].
Proof.
  intros Hc Hrev.
  destruct (reversed_range_empty E df rq Hrev) as (_ & _ & H).
  apply H; right; apply Hc.
Qed.

(** The search term [(] in the employer box raises on every frame and every
    range, reversed or not: the search of lines 241-244 raises, not the
    range of lines 233-236. *)
Lemma paren_search_raises (df : DataFrame) (lo hi : Z) :
  apply_filters plain_re df
    {| selected_states := []; selected_tiers := [];
       participant_range := (lo, hi); selected_segments := [];
       search_employer := "("; search_ein := "" |}
  = Raises re_error.
Proof. by apply apply_filters_raises. Qed.


(** * Further properties of the code *)

(** ** Facts about the stable sort *)

Section stable_sort_order.
Context {A : Type} (le : A → A → bool).
Context (le_total : ∀ x y, le x y = true ∨ le y x = true).
Context (le_trans : ∀ x y z, le x y = true → le y z = true → le x z = true).

Lemma stable_sort_sorted (l : list A) :
  StronglySorted (λ x y, le x y = true) (stable_sort le l).
Proof.
  rewrite <- argsort_snd.
  eapply StronglySorted_fmap; [|by apply argsort_sorted].
  by intros u v [Huv _].
Qed.

Lemma insert_sorted_front (x : A) (l : list A) :
  Forall (λ y, le x y = true) l → insert_sorted le x l = x :: l.
Proof. destruct 1 as [|y l Hy _]; simpl; [done|]. by rewrite Hy. Qed.

(** Sorting a sorted list changes nothing. *)
Lemma stable_sort_id (l : list A) :
  StronglySorted (λ x y, le x y = true) l → stable_sort le l = l.
Proof.
  induction 1 as [|x l Hl IH Hx]; [done|].
  rewrite stable_sort_cons, IH. by apply insert_sorted_front.
Qed.

Lemma insert_sorted_filter (P : A → Prop) `{∀ x, Decision (P x)}
    (x : A) (s : list A) :
  StronglySorted (λ x y, le x y = true) s →
  filter P (insert_sorted le x s)
  = if decide (P x) then insert_sorted le x (filter P s) else filter P s.
Proof.
  induction 1 as [|y s Hs IH Hy]; simpl.
  - rewrite filter_cons, filter_nil. by destruct (decide (P x)).
  - destruct (le x y) eqn:Hxy.
    + rewrite (filter_cons P x). destruct (decide (P x)); [|done].
      rewrite insert_sorted_front; [done|].
      apply Forall_forall. intros z Hz.
      apply list_elem_of_filter in Hz as [_ Hz].
      apply elem_of_cons in Hz as [->|Hz]; [done|].
      rewrite Forall_forall in Hy. eapply le_trans; [done|by apply Hy].
    + rewrite !(filter_cons P y), IH.
      destruct (decide (P y)), (decide (P x)); simpl; by rewrite ?Hxy.
Qed.

(** Sorting and filtering commute. *)
Lemma stable_sort_filter (P : A → Prop) `{∀ x, Decision (P x)} (l : list A) :
  filter P (stable_sort le l) = stable_sort le (filter P l).
Proof.
  induction l as [|x l IH]; [done|].
  rewrite stable_sort_cons, insert_sorted_filter by apply stable_sort_sorted.
  rewrite filter_cons, IH. by destruct (decide (P x)).
Qed.
End stable_sort_order.

Lemma filter_none {A} (P : A → Prop) `{∀ x, Decision (P x)} (l : list A) :
  Forall (λ x, ¬ P x) l → filter P l = [].
Proof.
  induction 1 as [|x l Hx _ IH]; [done|]. by rewrite filter_cons_False.
Qed.

Lemma filter_all {A} (P : A → Prop) `{∀ x, Decision (P x)} (l : list A) :
  Forall P l → filter P l = l.
Proof.
  induction 1 as [|x l Hx _ IH]; [done|]. by rewrite filter_cons_True, IH.
Qed.

(** In a sorted list the elements of a class that nothing outside it
    precedes come first. *)
Lemma sorted_filter_prefix {A} (R : relation A) (P : A → Prop)
    `{∀ x, Decision (P x)} (l : list A) :
  (∀ x y, x ∈ l → y ∈ l → ¬ P x → P y → ¬ R x y) →
  StronglySorted R l →
  l = filter P l ++ filter (λ x, ¬ P x) l.
Proof.
  intros HP Hl. induction Hl as [|x l Hl IH Hx]; [done|].
  assert (l = filter P l ++ filter (λ x, ¬ P x) l) as IH'.
  { apply IH. intros y z Hy Hz. apply HP; by right. }
  rewrite !filter_cons. destruct (decide (P x)) as [Hp|Hp].
  - rewrite decide_False by tauto. simpl. by f_equal.
  - rewrite decide_True by done.
    assert (Forall (λ y, ¬ P y) l) as Hnone.
    { rewrite Forall_forall in Hx. apply Forall_forall. intros y Hy Hpy.
      eapply (HP x y); [by left|by right|done..|by apply Hx]. }
    by rewrite filter_none, filter_all.
Qed.

Lemma StronglySorted_sublist {A} (R : relation A) (l k : list A) :
  l `sublist_of` k → StronglySorted R k → StronglySorted R l.
Proof.
  induction 1 as [|x l k Hlk IH|x l k Hlk IH]; intros Hk; [done| |].
  - apply StronglySorted_inv in Hk as [Hk Hx]. constructor; [by apply IH|].
    apply Forall_forall. intros y Hy. rewrite Forall_forall in Hx.
    apply Hx. by eapply elem_of_sublist.
  - apply StronglySorted_inv in Hk as [Hk _]. by apply IH.
Qed.

Lemma filter_fmap {A B} (f : A → B) (P : B → Prop) `{∀ x, Decision (P x)}
    (l : list A) :
  filter P (f <$> l) = f <$> filter (λ x, P (f x)) l.
Proof.
  induction l as [|x l IH]; [done|].
  rewrite fmap_cons, !filter_cons, IH. by destruct (decide (P (f x))).
Qed.

Lemma filter_ext_elem {A} (P Q : A → Prop) `{∀ x, Decision (P x)}
    `{∀ x, Decision (Q x)} (l : list A) :
  (∀ x, x ∈ l → P x ↔ Q x) → filter P l = filter Q l.
Proof.
  induction l as [|x l IH]; intros Hext; [done|].
  rewrite !filter_cons, IH by (intros y Hy; apply Hext; by right).
  destruct (decide (P x)) as [Hp|Hp], (decide (Q x)) as [Hq|Hq]; try done;
    by destruct (Hext x (list_elem_of_here _ _)); tauto.
Qed.

(** ** Ranking engine, continued *)

(** The ranked frame is the stable sort of the rows with their tier rank. *)
Lemma rank_stable_sort (df : DataFrame) :
  rank df = fst <$> stable_sort lexsort_le (with_Tier_Rank df).
Proof. unfold rank, df_sorted. by rewrite argsort_snd. Qed.

Lemma with_Tier_Rank_fst (s : list (Lead * option Z)) :
  Forall (λ x, x.2 = Tier_Rank x.1) s → with_Tier_Rank (fst <$> s) = s.
Proof.
  unfold with_Tier_Rank. induction 1 as [|[r t] s Hx _ IH]; [done|].
  rewrite !fmap_cons, IH. simpl in Hx. by rewrite Hx.
Qed.

Lemma with_Tier_Rank_Forall (df : DataFrame) :
  Forall (λ x, x.2 = Tier_Rank x.1) (with_Tier_Rank df).
Proof. unfold with_Tier_Rank. by apply Forall_fmap, Forall_true. Qed.

Lemma with_Tier_Rank_rank (df : DataFrame) :
  with_Tier_Rank (rank df) = stable_sort lexsort_le (with_Tier_Rank df).
Proof.
  rewrite rank_stable_sort. apply with_Tier_Rank_fst.
  rewrite stable_sort_perm. apply with_Tier_Rank_Forall.
Qed.

Lemma ranked_with_Tier_Rank (df : DataFrame) :
  ranked df ↔
  StronglySorted (λ x y, lexsort_le x y = true) (with_Tier_Rank df).
Proof.
  unfold ranked, with_Tier_Rank. induction df as [|r df IH].
  - split; constructor.
  - rewrite fmap_cons, !StronglySorted_cons, IH, Forall_fmap. done.
Qed.

Lemma rank_ranked (df : DataFrame) : ranked (rank df).
Proof.
  rewrite ranked_with_Tier_Rank, with_Tier_Rank_rank.
  apply stable_sort_sorted; [apply lexsort_le_total|apply lexsort_le_trans].
Qed.

(** A frame in rank order is ranked to itself. *)
Lemma rank_id (df : DataFrame) : ranked df → rank df = df.
Proof.
  intros Hr. rewrite rank_stable_sort, stable_sort_id.
  - unfold with_Tier_Rank. rewrite <- list_fmap_compose. apply list_fmap_id.
  - by apply ranked_with_Tier_Rank.
Qed.

Lemma rank_boolean_index (m : Lead → bool) (df : DataFrame) :
  boolean_index m (rank df) = rank (boolean_index m df).
Proof.
  unfold boolean_index. rewrite !rank_stable_sort, filter_fmap.
  rewrite (stable_sort_filter _ lexsort_le_total lexsort_le_trans).
  unfold with_Tier_Rank. by rewrite filter_fmap.
Qed.

Lemma outranks_spec (a b : Lead) :
  outranks a b ↔
    compare_na_last (Tier_Rank a) (Tier_Rank b) = Lt
    ∨ (Tier_Rank a = Tier_Rank b ∧ Participants b ≤ Participants a).
Proof.
  unfold outranks. rewrite lexsort_le_spec. simpl.
  by rewrite compare_na_last_eq.
Qed.

Lemma ranked_take (df : DataFrame) (n : nat) : ranked df → ranked (take n df).
Proof. apply StronglySorted_sublist, sublist_take. Qed.

Lemma ranked_boolean_index (m : Lead → bool) (df : DataFrame) :
  ranked df → ranked (boolean_index m df).
Proof. apply StronglySorted_sublist, sublist_filter. Qed.

(** X1. Ranking is idempotent: the ranked frame is in rank order, ranking it
    again changes nothing, and for [n >= 0] the top [n] of the top [n] leads
    are the top [n] leads. *)
Theorem rank_idempotent (df : DataFrame) (n : Z) :
  0 ≤ n →
  ranked (rank df)
  ∧ rank (rank df) = rank df
  ∧ get_top_priority_leads (get_top_priority_leads df n) n
    = get_top_priority_leads df n.
Proof.
  intros Hn. split; [apply rank_ranked|].
  split; [apply rank_id, rank_ranked|].
  unfold get_top_priority_leads. rewrite !head_take by done.
  rewrite rank_id by apply ranked_take, rank_ranked.
  apply take_idemp.
Qed.

Lemma rank_idempotent_witness :
  ranked (rank unranked)
  ∧ rank (rank unranked) = rank unranked
  ∧ get_top_priority_leads (get_top_priority_leads unranked 2) 2
    = get_top_priority_leads unranked 2.
Proof. apply (rank_idempotent unranked 2). lia. Defined.

(** X2. Ranking and filtering commute: filtering the ranked frame gives the
    ranked result of filtering the frame (and raises when that raises). *)
Theorem apply_filters_rank (E : ReEngine) (df : DataFrame)
    (rq : FilterRequest) :
  apply_filters E (rank df) rq
  = df_filtered ← apply_filters E df rq; Returns (rank df_filtered).
Proof.
  rewrite !apply_filters_one_pass.
  destruct (request_mask E rq) as [m|e]; [|done]. simpl.
  by rewrite rank_boolean_index.
Qed.

Lemma ranked_lookup (df : DataFrame) (p q : nat) (a b : Lead) :
  ranked df → df !! p = Some a → df !! q = Some b → (p < q)%nat →
  outranks a b.
Proof. intros Hr. by apply StronglySorted_lookup_lt. Qed.

(** X3. No lead left out of the top [n] outranks a lead in it: a lead of
    the top [n] has a smaller tier rank than every ranked lead at position
    [n] or later, or the same tier rank and at least as many participants. *)
Theorem top_n_dominates (df : DataFrame) (n : Z) (p q : nat) (a b : Lead) :
  0 ≤ n →
  get_top_priority_leads df n !! p = Some a →
  rank df !! q = Some b →
  n ≤ Z.of_nat q →
  compare_na_last (Tier_Rank a) (Tier_Rank b) = Lt
  ∨ (Tier_Rank a = Tier_Rank b ∧ Participants b ≤ Participants a).
Proof.
  intros Hn Hp Hq Hnq. apply outranks_spec.
  unfold get_top_priority_leads in Hp. rewrite head_take in Hp by done.
  apply lookup_take_Some in Hp as [Hp Hlt].
  eapply (ranked_lookup (rank df) p q); [apply rank_ranked|done..|lia].
Qed.

Lemma top_n_dominates_witness :
  compare_na_last (Tier_Rank lead_D) (Tier_Rank lead_C) = Lt
  ∨ (Tier_Rank lead_D = Tier_Rank lead_C
     ∧ Participants lead_C ≤ Participants lead_D).
Proof.
  apply (top_n_dominates unranked 2 0 3 lead_D lead_C);
    [lia|reflexivity|reflexivity|simpl; lia].
Defined.

(** The tier rank of a row, by its label. *)
Lemma Tier_Rank_cases (r : Lead) :
  (Priority_Tier r = "Tier 1" ∧ Tier_Rank r = Some 0)
  ∨ (Priority_Tier r = "Tier 2" ∧ Tier_Rank r = Some 1)
  ∨ (Priority_Tier r = "Tier 3" ∧ Tier_Rank r = Some 2)
  ∨ (Priority_Tier r ≠ "Tier 1" ∧ Priority_Tier r ≠ "Tier 2"
     ∧ Priority_Tier r ≠ "Tier 3" ∧ Tier_Rank r = None).
Proof.
  unfold Tier_Rank, tier_order.
  destruct (decide (Priority_Tier r = "Tier 1")) as [->|H1]; [by left|].
  destruct (decide (Priority_Tier r = "Tier 2")) as [->|H2];
    [by right; left|].
  destruct (decide (Priority_Tier r = "Tier 3")) as [->|H3];
    [by right; right; left|].
  right; right; right. repeat split; try done.
  rewrite !lookup_insert_ne by done. by apply lookup_singleton_ne.
Qed.

(** The rows of one tier come before the rows of the later tiers. *)
Lemma outranks_tier_1 (x y : Lead) :
  Priority_Tier x ≠ "Tier 1" → Priority_Tier y = "Tier 1" → ¬ outranks x y.
Proof.
  intros Hx Hy. rewrite outranks_spec.
  destruct (Tier_Rank_cases x) as [[? _]|[[_ Hx']|[[_ Hx']|(_&_&_&Hx')]]];
    [done|..];
    destruct (Tier_Rank_cases y) as [[_ Hy']|[[? _]|[[? _]|(?&_)]]];
    try congruence; rewrite Hx', Hy'; by intros [?|[? _]].
Qed.

Lemma outranks_tier_2 (x y : Lead) :
  Priority_Tier x ≠ "Tier 1" → Priority_Tier x ≠ "Tier 2" →
  Priority_Tier y = "Tier 2" → ¬ outranks x y.
Proof.
  intros Hx1 Hx2 Hy. rewrite outranks_spec.
  destruct (Tier_Rank_cases x) as [[? _]|[[? _]|[[_ Hx']|(_&_&_&Hx')]]];
    [done|done|..];
    destruct (Tier_Rank_cases y) as [[? _]|[[_ Hy']|[[? _]|(_&?&_)]]];
    try congruence; rewrite Hx', Hy'; by intros [?|[? _]].
Qed.

(** The Tier 1 rows of a ranked frame are its first rows. *)
Lemma ranked_tier_1_first (df : DataFrame) :
  ranked df →
  df = tier_rows "Tier 1" df
       ++ boolean_index (λ r, negb (bool_decide (Priority_Tier r = "Tier 1")))
            df.
Proof.
  intros Hr. unfold tier_rows, boolean_index.
  rewrite (sorted_filter_prefix outranks
             (λ r, bool_decide (Priority_Tier r = "Tier 1")) df) at 1;
    [|intros x y _ _ Hx Hy|done].
  - f_equal. apply list_filter_iff. intros r. by rewrite negb_True.
  - apply outranks_tier_1.
    + intros Heq. apply Hx. by apply bool_decide_pack.
    + by apply bool_decide_unpack in Hy.
Qed.

(** X4. When every row carries one of the three tier labels, as in a loaded
    frame, the ranked frame is the ranked Tier 1 rows, then the ranked
    Tier 2 rows, then the ranked Tier 3 rows. *)
Theorem rank_tier_blocks (df : DataFrame) :
  Forall (λ r, Priority_Tier r ∈ ["Tier 1"; "Tier 2"; "Tier 3"]) df →
  rank df = rank (tier_rows "Tier 1" df) ++ rank (tier_rows "Tier 2" df)
            ++ rank (tier_rows "Tier 3" df).
Proof.
  intros Hlab. unfold tier_rows. rewrite <- !rank_boolean_index.
  assert (Hlab' : Forall (λ r, Priority_Tier r ∈ ["Tier 1"; "Tier 2"; "Tier 3"])
                    (rank df)) by by rewrite rank_perm.
  assert (Hr := rank_ranked df). revert Hlab' Hr.
  generalize (rank df). clear. intros s Hlab Hr.
  rewrite (ranked_tier_1_first s Hr) at 1. unfold tier_rows. f_equal.
  set (rest := boolean_index _ s).
  assert (Hrest : ranked rest) by by apply ranked_boolean_index.
  rewrite (sorted_filter_prefix outranks
             (λ r, bool_decide (Priority_Tier r = "Tier 2")) rest) at 1;
    [|intros x y Hx _ Hx2 Hy|done].
  - unfold rest, boolean_index. rewrite !list_filter_filter. f_equal.
    + apply list_filter_iff. intros r.
      rewrite negb_True, !bool_decide_spec. split; [tauto|].
      intros Hr2. split; [done|]. by rewrite Hr2.
    + apply filter_ext_elem. intros r Hin.
      rewrite Forall_forall in Hlab. specialize (Hlab r Hin).
      rewrite negb_True, !bool_decide_spec.
      rewrite !elem_of_cons, elem_of_nil in Hlab.
      destruct Hlab as [Hl|[Hl|[Hl|[]]]]; rewrite Hl; split; try done;
        intros [? ?]; done.
  - unfold rest, boolean_index in Hx.
    apply list_elem_of_filter in Hx as [Hx1 _].
    apply negb_True in Hx1. rewrite bool_decide_spec in Hx1, Hx2, Hy.
    by apply outranks_tier_2.
Qed.

Lemma rank_tier_blocks_witness :
  rank unranked = rank (tier_rows "Tier 1" unranked)
                  ++ rank (tier_rows "Tier 2" unranked)
                  ++ rank (tier_rows "Tier 3" unranked).
Proof.
  apply (rank_tier_blocks unranked). unfold unranked.
  repeat (constructor; [by vm_compute; set_solver|]). constructor.
Defined.

(** ** Priority breakdown *)

Lemma tier_rows_all (tier : string) (df : DataFrame) :
  Forall (λ r, Priority_Tier r = tier) df → tier_rows tier df = df.
Proof.
  intros H. unfold tier_rows, boolean_index. apply filter_all.
  eapply Forall_impl; [exact H|]. intros r Hr. by apply bool_decide_pack.
Qed.

Lemma tier_rows_none (tier : string) (df : DataFrame) :
  Forall (λ r, Priority_Tier r ≠ tier) df → tier_rows tier df = [].
Proof.
  intros H. unfold tier_rows, boolean_index. apply filter_none.
  eapply Forall_impl; [exact H|]. intros r Hr Hb.
  by apply bool_decide_unpack in Hb.
Qed.

Lemma tier_rows_app (tier : string) (df1 df2 : DataFrame) :
  tier_rows tier (df1 ++ df2) = tier_rows tier df1 ++ tier_rows tier df2.
Proof. apply filter_app. Qed.

Lemma tier_rows_Forall (tier : string) (df : DataFrame) :
  Forall (λ r, Priority_Tier r = tier) (tier_rows tier df).
Proof.
  apply Forall_forall. intros r Hr. unfold tier_rows, boolean_index in Hr.
  apply list_elem_of_filter in Hr as [Hr _]. by apply bool_decide_unpack in Hr.
Qed.

(** The Tier 1 rows among the first [n] ranked rows are the first [n]
    Tier 1 rows, as many as there are. *)
Lemma tier_1_of_top (df : DataFrame) (n : nat) :
  length (tier_rows "Tier 1" (take n (rank df)))
  = (n `min` length (tier_rows "Tier 1" df))%nat.
Proof.
  assert (length (tier_rows "Tier 1" df)
          = length (tier_rows "Tier 1" (rank df))) as ->.
  { unfold tier_rows. by rewrite rank_boolean_index, rank_perm. }
  rewrite (ranked_tier_1_first (rank df) (rank_ranked df)) at 1.
  set (T := tier_rows "Tier 1" (rank df)). set (R := boolean_index _ _).
  rewrite take_app, tier_rows_app.
  rewrite (tier_rows_all _ (take n T)), (tier_rows_none _ (take _ R)).
  - rewrite app_nil_r. apply length_take.
  - apply Forall_take, Forall_forall. intros r Hr. unfold R, boolean_index in Hr.
    apply list_elem_of_filter in Hr as [Hr _]. apply negb_True in Hr.
    by rewrite bool_decide_spec in Hr.
  - apply Forall_take, tier_rows_Forall.
Qed.

Lemma int_mean_raises (mean : list Z → Z) (col : list Z) :
  int_mean mean col = Exc ValueError ↔ col = [].
Proof. by destruct col. Qed.

Lemma get_top_priority_leads_nil (df : DataFrame) (n : Z) :
  0 < n → get_top_priority_leads df n = [] ↔ df = [].
Proof.
  intros Hn. unfold get_top_priority_leads. rewrite head_take by lia.
  split.
  - intros Hnil. apply (f_equal length) in Hnil.
    rewrite length_take, rank_perm in Hnil. simpl in Hnil.
    destruct df; [done|]. simpl in Hnil. lia.
  - intros ->. change (rank []) with (@nil Lead). apply take_nil.
Qed.

(** X5. The "Tier 1 Leads" metric of the top priority tab is the number of
    Tier 1 leads of the filtered frame, capped at 50: the tab shows Tier 1
    leads only as long as the filtered frame has any left. *)
Theorem top_priority_tab_tier1 (mean : list Z → Z) (df_filtered : DataFrame)
    (b : PriorityBreakdown) :
  top_priority_tab mean df_filtered = Ok b →
  tier1_leads b = (50 `min` length (tier_rows "Tier 1" df_filtered))%nat.
Proof.
  unfold top_priority_tab, priority_breakdown, get_top_priority_leads.
  rewrite head_take by done.
  destruct (int_mean _ _) as [avg|e]; [|done]. simpl. intros [= <-]. simpl.
  apply (tier_1_of_top df_filtered 50).
Qed.

Lemma top_priority_tab_tier1_witness :
  ∃ b, top_priority_tab exact_mean unranked = Ok b ∧ tier1_leads b = 2%nat.
Proof.
  eexists. split; [reflexivity|].
  by rewrite (top_priority_tab_tier1 exact_mean unranked _ eq_refl).
Defined.

(** X6. The top priority tab raises [ValueError] exactly when the filtered
    frame has no row ([int] of the mean of no participants); on every other
    frame it returns its three metrics. *)
Theorem top_priority_tab_raises (mean : list Z → Z)
    (df_filtered : DataFrame) :
  (top_priority_tab mean df_filtered = Exc ValueError ↔ df_filtered = [])
  ∧ (df_filtered ≠ [] → ∃ b, top_priority_tab mean df_filtered = Ok b).
Proof.
  unfold top_priority_tab, priority_breakdown.
  pose proof (get_top_priority_leads_nil df_filtered top_n eq_refl) as Hnil.
  destruct (get_top_priority_leads df_filtered top_n) as [|r top] eqn:Htop.
  - assert (df_filtered = []) as -> by by apply Hnil.
    split; [done|]. by intros [].
  - split; [|by eexists].
    split; [done|]. intros ->. by destruct Hnil as [_ Hnil]; discriminate Hnil.
Qed.

(** ** Summary statistics *)

Lemma Z_leb_total (x y : Z) : (x <=? y) = true ∨ (y <=? x) = true.
Proof. rewrite !Z.leb_le. lia. Qed.

Lemma Z_leb_trans (x y z : Z) :
  (x <=? y) = true → (y <=? z) = true → (x <=? z) = true.
Proof. rewrite !Z.leb_le. lia. Qed.

(** ** float64 *)

Lemma float64_small (z : Z) : Z.abs z ≤ 2 ^ 53 → float64 z = z.
Proof.
  intros Hz. unfold float64.
  destruct (Z.leb_spec (Z.log2 (Z.abs z) - 52) 0) as [|He]; [done|].
  assert (Z.abs z = 2 ^ 53) as Habs.
  { destruct (Z.eq_dec (Z.abs z) (2 ^ 53)) as [|Hne]; [done|].
    assert (Z.log2 (Z.abs z) < 53); [|lia].
    destruct (Z.eq_dec (Z.abs z) 0) as [->|]; [done|].
    apply Z.log2_lt_pow2; lia. }
  rewrite Habs. change (Z.log2 (2 ^ 53) - 52) with 1. change (2 ^ 1) with 2.
  assert (z `mod` 2 = 0) as Hr.
  { destruct (Z.abs_eq_or_opp z) as [Hq|Hq]; rewrite Hq in Habs.
    - by rewrite Habs.
    - assert (z = - 2 ^ 53) as -> by lia. done. }
  rewrite Hr. simpl. pose proof (Z.div_mod z 2). lia.
Qed.

(** The binade of an integer beyond 2^53. *)
Lemma binade (z : Z) (e : Z) :
  e = Z.log2 (Z.abs z) - 52 → 0 < e →
  2 ^ 52 * 2 ^ e ≤ Z.abs z < 2 ^ 53 * 2 ^ e.
Proof.
  intros -> He. rewrite <- !Z.pow_add_r by lia.
  assert (0 < Z.abs z) as Hpos.
  { destruct (Z.eq_dec (Z.abs z) 0) as [Hz|]; [|lia]. rewrite Hz in He.
    simpl in He. lia. }
  pose proof (Z.log2_spec (Z.abs z) Hpos) as [H1 H2].
  replace (52 + (Z.log2 (Z.abs z) - 52)) with (Z.log2 (Z.abs z)) by lia.
  replace (53 + (Z.log2 (Z.abs z) - 52)) with (Z.succ (Z.log2 (Z.abs z)))
    by lia.
  done.
Qed.

(** [float64 z] is one of the two multiples of the unit around [z]. *)
Lemma float64_cases (z e : Z) :
  e = Z.log2 (Z.abs z) - 52 → 0 < e →
  (z `mod` 2 ^ e = 0 ∧ float64 z = z)
  ∨ (0 < z `mod` 2 ^ e
     ∧ (float64 z = z `div` 2 ^ e * 2 ^ e
        ∨ float64 z = (z `div` 2 ^ e + 1) * 2 ^ e)).
Proof.
  intros -> He. unfold float64. set (e := Z.log2 (Z.abs z) - 52) in *.
  destruct (Z.leb_spec e 0) as [|_]; [lia|].
  assert (0 < 2 ^ e) as Hu by (apply Z.pow_pos_nonneg; lia).
  pose proof (Z.mod_pos_bound z (2 ^ e) Hu) as Hr.
  pose proof (Z.div_mod z (2 ^ e)) as Hdm.
  destruct (Z.eq_dec (z `mod` 2 ^ e) 0) as [H0|Hn0].
  - left. split; [done|]. rewrite H0.
    destruct (Z.ltb_spec (2 * 0) (2 ^ e)); lia.
  - right. split; [lia|].
    destruct (_ <? _); [by left|]. destruct (_ <? _); [by right|].
    destruct (Z.even _); [by left|by right].
Qed.

Lemma is_float64_multiple (x e : Z) :
  0 ≤ e → (2 ^ e | x) → Z.abs x ≤ 2 ^ 53 * 2 ^ e → is_float64 x.
Proof.
  intros He Hdiv Hx. unfold is_float64.
  destruct (Z.eq_dec (Z.abs x) (2 ^ 53 * 2 ^ e)) as [Heq|Hne].
  - rewrite Heq, <- Z.pow_add_r, Z.log2_pow2 by lia.
    replace (Z.max 0 (53 + e - 52)) with (e + 1) by lia.
    assert ((2 ^ (e + 1) | Z.abs x)) as Hd.
    { rewrite Heq, <- Z.pow_add_r by lia. exists (2 ^ 52).
      rewrite <- Z.pow_add_r by lia. f_equal. lia. }
    by apply Z.divide_abs_r.
  - apply Z.divide_trans with (2 ^ e); [|exact Hdiv].
    destruct (Z.eq_dec x 0) as [->|Hx0].
    { change (2 ^ Z.max 0 (Z.log2 (Z.abs 0) - 52)) with 1.
      apply Z.divide_1_l. }
    assert (Z.log2 (Z.abs x) < 53 + e).
    { apply Z.log2_lt_pow2; [lia|]. rewrite Z.pow_add_r by lia. lia. }
    exists (2 ^ (e - Z.max 0 (Z.log2 (Z.abs x) - 52))).
    rewrite <- Z.pow_add_r by lia. f_equal. lia.
Qed.

Lemma float64_is_float64 (z : Z) : is_float64 (float64 z).
Proof.
  set (e := Z.log2 (Z.abs z) - 52).
  destruct (Z.le_gt_cases e 0) as [He|He].
  - unfold float64. fold e. destruct (Z.leb_spec e 0); [|lia].
    unfold is_float64. fold e. replace (Z.max 0 e) with 0 by lia.
    apply Z.divide_1_l.
  - pose proof (binade z e eq_refl He) as Hb.
    assert (0 < 2 ^ e) as Hu by (apply Z.pow_pos_nonneg; lia).
    pose proof (Z.mod_pos_bound z (2 ^ e) Hu) as Hr.
    pose proof (Z.div_mod z (2 ^ e)) as Hdm.
    destruct (float64_cases z e eq_refl He) as [[Hr0 ->]|[Hr0 [->| ->]]].
    + apply (is_float64_multiple z e); [lia| |lia].
      exists (z `div` 2 ^ e). lia.
    + apply (is_float64_multiple _ e); [lia|by eexists|].
      rewrite Z.abs_mul, (Z.abs_eq (2 ^ e)) by lia.
      apply Z.mul_le_mono_nonneg_r; [lia|].
      assert (- 2 ^ 53 ≤ z `div` 2 ^ e) by (apply Z.div_le_lower_bound; lia).
      assert (z `div` 2 ^ e < 2 ^ 53) by (apply Z.div_lt_upper_bound; lia).
      lia.
    + apply (is_float64_multiple _ e); [lia|by eexists|].
      rewrite Z.abs_mul, (Z.abs_eq (2 ^ e)) by lia.
      apply Z.mul_le_mono_nonneg_r; [lia|].
      assert (- 2 ^ 53 ≤ z `div` 2 ^ e) by (apply Z.div_le_lower_bound; lia).
      assert (z `div` 2 ^ e < 2 ^ 53) by (apply Z.div_lt_upper_bound; lia).
      lia.
Qed.

Lemma is_float64_double (x : Z) : is_float64 x → is_float64 (2 * x).
Proof.
  unfold is_float64. intros Hx.
  destruct (Z.eq_dec x 0) as [->|Hx0]; [done|].
  replace (Z.abs (2 * x)) with (2 * Z.abs x) by lia.
  rewrite Z.log2_double by lia.
  set (l := Z.log2 (Z.abs x)) in *.
  destruct (Z.le_gt_cases (Z.succ l - 52) 0).
  - replace (Z.max 0 (Z.succ l - 52)) with 0 by lia. apply Z.divide_1_l.
  - replace (Z.max 0 (Z.succ l - 52)) with (Z.max 0 (l - 52) + 1) by lia.
    rewrite Z.pow_add_r by lia. change (2 ^ 1) with 2.
    rewrite Z.mul_comm. by apply Z.mul_divide_mono_l.
Qed.

Lemma floor_multiple (u q r k : Z) :
  0 < u → 0 ≤ r < u → k * u ≤ u * q + r → k * u ≤ q * u.
Proof.
  intros Hu Hr Hk. apply Z.mul_le_mono_nonneg_r; [lia|].
  assert (k < q + 1); [|lia]. apply (Z.mul_lt_mono_pos_r u); lia.
Qed.

Lemma ceil_multiple (u q r k : Z) :
  0 < u → 0 < r < u → u * q + r ≤ k * u → (q + 1) * u ≤ k * u.
Proof.
  intros Hu Hr Hk. apply Z.mul_le_mono_nonneg_r; [lia|].
  assert (q < k); [|lia]. apply (Z.mul_lt_mono_pos_r u); lia.
Qed.

(** Rounding does not cross a float64. *)
Lemma float64_ge (x z : Z) : is_float64 x → x ≤ z → x ≤ float64 z.
Proof.
  intros Hx Hxz. set (e := Z.log2 (Z.abs z) - 52).
  destruct (Z.le_gt_cases e 0) as [He|He].
  { unfold float64. fold e. by destruct (Z.leb_spec e 0); [|lia]. }
  pose proof (binade z e eq_refl He) as Hb.
  assert (0 < 2 ^ e) as Hu by (apply Z.pow_pos_nonneg; lia).
  pose proof (Z.mod_pos_bound z (2 ^ e) Hu) as Hr.
  pose proof (Z.div_mod z (2 ^ e)) as Hdm.
  assert (x ≤ z `div` 2 ^ e * 2 ^ e) as Hfloor.
  { destruct (Z.le_gt_cases e (Z.log2 (Z.abs x) - 52)) as [Hex|Hex].
    - assert ((2 ^ e | x)) as [k ->].
      { apply Z.divide_trans with (2 ^ Z.max 0 (Z.log2 (Z.abs x) - 52));
          [|exact Hx].
        exists (2 ^ (Z.max 0 (Z.log2 (Z.abs x) - 52) - e)).
        rewrite <- Z.pow_add_r by lia. f_equal. lia. }
      apply (floor_multiple _ _ (z `mod` 2 ^ e)); lia.
    - assert (Z.abs x < 2 ^ 52 * 2 ^ e) as Hsmall.
      { destruct (Z.eq_dec x 0) as [->|Hx0]; [simpl; lia|].
        rewrite <- Z.pow_add_r by lia.
        apply Z.log2_lt_pow2; lia. }
      destruct (Z.le_gt_cases 0 z); [|lia].
      pose proof (floor_multiple (2 ^ e) (z `div` 2 ^ e) (z `mod` 2 ^ e)
                    (2 ^ 52)).
      lia. }
  destruct (float64_cases z e eq_refl He) as [[_ ->]|[_ [->| ->]]]; lia.
Qed.

Lemma float64_le (x z : Z) : is_float64 x → z ≤ x → float64 z ≤ x.
Proof.
  intros Hx Hxz. set (e := Z.log2 (Z.abs z) - 52).
  destruct (Z.le_gt_cases e 0) as [He|He].
  { unfold float64. fold e. by destruct (Z.leb_spec e 0); [|lia]. }
  pose proof (binade z e eq_refl He) as Hb.
  assert (0 < 2 ^ e) as Hu by (apply Z.pow_pos_nonneg; lia).
  pose proof (Z.mod_pos_bound z (2 ^ e) Hu) as Hr.
  pose proof (Z.div_mod z (2 ^ e)) as Hdm.
  destruct (float64_cases z e eq_refl He) as [[_ ->]|[Hr0 Hf]]; [done|].
  assert ((z `div` 2 ^ e + 1) * 2 ^ e ≤ x) as Hceil.
  { destruct (Z.le_gt_cases e (Z.log2 (Z.abs x) - 52)) as [Hex|Hex].
    - assert ((2 ^ e | x)) as [k ->].
      { apply Z.divide_trans with (2 ^ Z.max 0 (Z.log2 (Z.abs x) - 52));
          [|exact Hx].
        exists (2 ^ (Z.max 0 (Z.log2 (Z.abs x) - 52) - e)).
        rewrite <- Z.pow_add_r by lia. f_equal. lia. }
      apply (ceil_multiple _ _ (z `mod` 2 ^ e)); lia.
    - assert (Z.abs x < 2 ^ 52 * 2 ^ e) as Hsmall.
      { destruct (Z.eq_dec x 0) as [->|Hx0]; [simpl; lia|].
        rewrite <- Z.pow_add_r by lia.
        apply Z.log2_lt_pow2; lia. }
      destruct (Z.le_gt_cases 0 z); [lia|].
      pose proof (ceil_multiple (2 ^ e) (z `div` 2 ^ e) (z `mod` 2 ^ e)
                    (- 2 ^ 52)).
      lia. }
  destruct Hf as [-> | ->]; lia.
Qed.

(** The conversion agrees with the rounding of [SpecFloat] on the samples. *)
Lemma float64_spec_float :
  forallb (λ z, bool_decide (spec_float64 z = Some (float64 z)))
    float64_samples = true.
Proof. by vm_compute. Qed.

(** ** Median *)

Lemma int_median_raises (col : list Z) :
  int_median col = Exc ValueError ↔ col = [].
Proof.
  unfold int_median.
  pose proof (Permutation_length (stable_sort_perm Z.leb (float64 <$> col)))
    as Hlen.
  rewrite length_fmap in Hlen.
  destruct (length (stable_sort Z.leb (float64 <$> col))) as [|n] eqn:Hn.
  - destruct col; [done|discriminate Hlen].
  - split; [by destruct (Nat.odd (S n))|]. intros ->. discriminate Hlen.
Qed.

(** The truncated median lies between the float64 values of two values of
    the column. *)
Lemma int_median_bounds (col : list Z) (m : Z) :
  int_median col = Ok m →
  ∃ lo hi, lo ∈ col ∧ hi ∈ col ∧ float64 lo ≤ m ≤ float64 hi.
Proof.
  unfold int_median.
  pose proof (stable_sort_perm Z.leb (float64 <$> col)) as Hperm.
  pose proof (stable_sort_sorted Z.leb Z_leb_total Z_leb_trans
                (float64 <$> col)) as Hs.
  set (s := stable_sort Z.leb (float64 <$> col)) in *.
  assert (∀ i x, s !! i = Some x → ∃ c, c ∈ col ∧ x = float64 c) as Hcol.
  { intros i x Hx. apply list_elem_of_lookup_2 in Hx. rewrite Hperm in Hx.
    apply list_elem_of_fmap in Hx as (c & -> & Hc). by exists c. }
  destruct (length s) as [|n] eqn:Hn; [done|].
  destruct (lookup_lt_is_Some_2 s (S n / 2)) as [hi Hhi].
  { rewrite Hn. apply Nat.div_lt; lia. }
  destruct (Nat.odd (S n)) eqn:Hodd.
  - rewrite Hhi. intros [= <-]. destruct (Hcol _ _ Hhi) as (c & Hc & ->).
    exists c, c. split_and!; [done|done|lia|lia].
  - assert (1 ≤ S n / 2)%nat as Hhalf.
    { destruct n as [|n]; [done|].
      change 1%nat with (2 / 2)%nat. apply Nat.Div0.div_le_mono. lia. }
    destruct (lookup_lt_is_Some_2 s (S n / 2 - 1)) as [lo Hlo].
    { rewrite Hn. pose proof (Nat.div_lt (S n) 2). lia. }
    rewrite Hhi, Hlo. intros [= <-].
    assert ((lo <=? hi) = true) as Hle.
    { apply (StronglySorted_lookup_lt (λ x y, (x <=? y) = true) s
               (S n / 2 - 1) (S n / 2)); [done..|lia]. }
    apply Z.leb_le in Hle.
    destruct (Hcol _ _ Hlo) as (a & Ha & ->).
    destruct (Hcol _ _ Hhi) as (b & Hb & ->).
    exists a, b. split; [done|]. split; [done|].
    pose proof (float64_ge (2 * float64 a) (float64 a + float64 b)
                  (is_float64_double _ (float64_is_float64 a))) as Hge.
    pose proof (float64_le (2 * float64 b) (float64 a + float64 b)
                  (is_float64_double _ (float64_is_float64 b))) as Hupper.
    revert Hge Hupper. generalize (float64 (float64 a + float64 b)).
    intros sum Hge Hupper.
    Z.to_euclidean_division_equations. lia.
Qed.

(** The median on examples: beyond 2^53 it is the float64 one, and a half
    is truncated towards zero. *)
Lemma int_median_float64 :
  int_median [2 ^ 53 + 1] = Ok (2 ^ 53)
  ∧ int_median [2 ^ 53 - 3; 2 ^ 53 - 2] = Ok (2 ^ 53 - 2)
  ∧ int_median [9000; 3000; 6000; 7500] = Ok 6750
  ∧ int_median [3; 4] = Ok 3
  ∧ int_median [-3; -4] = Ok (-3).
Proof. by vm_compute. Qed.

Lemma create_summary_stats_nil :
  create_summary_stats [] = Exc ValueError.
Proof. reflexivity. Qed.

Lemma create_summary_stats_returns (df : DataFrame) :
  df ≠ [] → ∃ st, create_summary_stats df = Ok st.
Proof.
  intros Hne. unfold create_summary_stats.
  destruct (int_median (Participants <$> df)) as [m|e] eqn:Hm;
    [by eexists|].
  assert (e = ValueError) as ->.
  { unfold int_median in Hm. destruct (length _); [by injection Hm|].
    by destruct (Nat.odd _). }
  apply int_median_raises, fmap_nil_inv in Hm. done.
Qed.

(** X7. [create_summary_stats] raises [ValueError] exactly on a frame
    without rows ([int] of the median of no participants).  On every other
    frame "Total Leads" is the number of rows, neither count exceeds it, and
    "Median Participants" lies between the float64 values of two participant
    counts of the frame: between two participant counts of the frame, when
    every count has a magnitude of at most 2^53 and so is a float64. *)
Theorem create_summary_stats_spec (df : DataFrame) :
  (create_summary_stats df = Exc ValueError ↔ df = [])
  ∧ (df ≠ [] → ∃ st, create_summary_stats df = Ok st)
  ∧ (∀ st, create_summary_stats df = Ok st →
       total_leads st = length df
       ∧ (tier1_count st ≤ length df)%nat
       ∧ (large_market st ≤ length df)%nat
       ∧ (∃ a b, a ∈ df ∧ b ∈ df
                 ∧ float64 (Participants a) ≤ median_participants st
                   ≤ float64 (Participants b))
       ∧ ((∀ r, r ∈ df → Z.abs (Participants r) ≤ 2 ^ 53) →
          ∃ a b, a ∈ df ∧ b ∈ df
                 ∧ Participants a ≤ median_participants st
                   ≤ Participants b)).
Proof.
  split; [|split].
  - split; [|intros ->; apply create_summary_stats_nil].
    intros Hraise. destruct df as [|r df]; [done|].
    destruct (create_summary_stats_returns (r :: df)) as [st Hst]; [done|].
    by rewrite Hst in Hraise.
  - apply create_summary_stats_returns.
  - unfold create_summary_stats. intros st.
    pose proof (int_median_bounds (Participants <$> df)) as Hbound.
    destruct (int_median (Participants <$> df)) as [m|e]; [|done].
    simpl. intros [= <-]. simpl. split; [done|].
    split; [apply length_filter|]. split; [apply length_filter|].
    destruct (Hbound m eq_refl) as (lo & hi & Hlo & Hhi & Hle).
    apply list_elem_of_fmap in Hlo as (a & -> & Ha).
    apply list_elem_of_fmap in Hhi as (b & -> & Hb).
    split; [by exists a, b|]. intros Hsmall. exists a, b.
    by rewrite <- (float64_small (Participants a)),
      <- (float64_small (Participants b)) by auto.
Qed.

Lemma create_summary_stats_witness_run :
  create_summary_stats unranked
  = Ok {| total_leads := 4; median_participants := 6750;
          tier1_count := 2; large_market := 3 |}.
Proof. reflexivity. Qed.

(** X8. The dashboard tab computes the summary of the filtered frame
    without looking at its length: it raises [ValueError] exactly when the
    filter returns no row, [re.error] exactly when the filter raises it, and
    never [IndexError]. *)
Theorem dashboard_summary_raises (E : ReEngine) (df_original : DataFrame)
    (rq : FilterRequest) :
  (dashboard_summary E df_original rq = Exc ValueError
   ↔ apply_filters E df_original rq = Returns [])
  ∧ (dashboard_summary E df_original rq = Exc ReError
     ↔ apply_filters E df_original rq = Raises re_error)
  ∧ dashboard_summary E df_original rq ≠ Exc IndexError.
Proof.
  unfold dashboard_summary.
  destruct (apply_filters E df_original rq) as [df|[]]; simpl;
    [|by repeat split].
  destruct df as [|r df].
  - rewrite create_summary_stats_nil. by repeat split.
  - destruct (create_summary_stats_returns (r :: df)) as [st ->]; [done|].
    by repeat split.
Qed.

(** ** Loaded frames *)

Lemma load_data_loaded (csv : list CsvRow) : Forall loaded (load_data csv).
Proof. unfold load_data. apply Forall_fmap, Forall_true. by intros r. Qed.

Lemma priority_tier_1 (x : option string) :
  priority_tier x = "Tier 1" ↔ py_in x TIER_1_STATES = true.
Proof.
  unfold priority_tier.
  destruct (py_in x TIER_1_STATES); [done|].
  by destruct (py_in x TIER_2_STATES).
Qed.

Lemma priority_tier_labels (x : option string) :
  priority_tier x ∈ ["Tier 1"; "Tier 2"; "Tier 3"].
Proof.
  unfold priority_tier.
  destruct (py_in x TIER_1_STATES); [by left|].
  destruct (py_in x TIER_2_STATES); [by right; left|by right; right; left].
Qed.

Lemma loaded_Tier_Rank (r : Lead) : loaded r → is_Some (Tier_Rank r).
Proof.
  intros [Ht _]. pose proof (priority_tier_labels (State r)) as Hl.
  rewrite <- Ht in Hl.
  destruct (Tier_Rank_cases r) as [[_ ->]|[[_ ->]|[[_ ->]|(H1&H2&H3&_)]]];
    [by eexists..|].
  rewrite !elem_of_cons, elem_of_nil in Hl. tauto.
Qed.

Lemma iloc_slice_sublist {A} (l : list A) (start stop : Z) :
  iloc_slice l start stop `sublist_of` l.
Proof.
  unfold iloc_slice. etrans; [apply sublist_take|apply sublist_drop].
Qed.

Lemma apply_filters_sublist (E : ReEngine) (df df' : DataFrame)
    (rq : FilterRequest) :
  apply_filters E df rq = Returns df' → df' `sublist_of` df.
Proof.
  rewrite apply_filters_one_pass.
  destruct (request_mask E rq) as [m|e]; [|done]. simpl. intros [= <-].
  apply sublist_filter.
Qed.

(** X9. On a frame of loaded rows the "Tier 1 States" metric of the summary
    is the number of leads whose state is one of [TIER_1_STATES]. *)
Theorem summary_tier1_count (df : DataFrame) (st : SummaryStats) :
  Forall loaded df →
  create_summary_stats df = Ok st →
  tier1_count st
  = length (boolean_index (λ r, py_in (State r) TIER_1_STATES) df).
Proof.
  intros Hl. unfold create_summary_stats.
  destruct (int_median (Participants <$> df)) as [m|e]; [|done].
  simpl. intros [= <-]. simpl. f_equal.
  unfold tier_rows, boolean_index. apply filter_ext_elem. intros r Hr.
  rewrite Forall_forall in Hl. destruct (Hl r Hr) as [Ht _].
  rewrite bool_decide_spec, Ht, priority_tier_1. symmetry. apply Is_true_true.
Qed.

Lemma summary_tier1_count_witness :
  tier1_count {| total_leads := 4; median_participants := 6750;
                 tier1_count := 2; large_market := 3 |}
  = length (boolean_index (λ r, py_in (State r) TIER_1_STATES) unranked).
Proof.
  apply (summary_tier1_count unranked); [|reflexivity].
  apply (load_data_loaded [csv_C; csv_B; csv_A; csv_D]).
Defined.

(** X10. The filters, the ranking and the truncation return rows of their
    input, unchanged: from a loaded frame every lead that reaches the table
    or the top priority list still has the tier of its state, the query of
    its three columns, and a tier rank. *)
Theorem loaded_preserved (E : ReEngine) (csv : list CsvRow)
    (rq : FilterRequest) (df_filtered : DataFrame) (n : Z) :
  apply_filters E (load_data csv) rq = Returns df_filtered →
  df_filtered `sublist_of` load_data csv
  ∧ get_top_priority_leads df_filtered n ⊆ df_filtered
  ∧ Forall loaded df_filtered
  ∧ Forall (λ r, loaded r ∧ is_Some (Tier_Rank r))
      (get_top_priority_leads df_filtered n).
Proof.
  intros Hf. apply apply_filters_sublist in Hf.
  assert (get_top_priority_leads df_filtered n ⊆ df_filtered) as Htop.
  { unfold get_top_priority_leads, head. intros r Hr.
    rewrite <- (rank_perm df_filtered).
    by eapply elem_of_sublist; [|apply iloc_slice_sublist]. }
  assert (Forall loaded df_filtered) as Hl.
  { apply Forall_forall. intros r Hr.
    pose proof (load_data_loaded csv) as Hall. rewrite Forall_forall in Hall.
    apply Hall. by eapply elem_of_sublist. }
  repeat split; try done.
  apply Forall_forall. intros r Hr. rewrite Forall_forall in Hl.
  split; [|apply loaded_Tier_Rank]; by apply Hl, Htop.
Qed.

Lemma loaded_preserved_witness :
  [lead_A; lead_C] `sublist_of` load_data [csv_A; csv_B; csv_C]
  ∧ get_top_priority_leads [lead_A; lead_C] 1 ⊆ [lead_A; lead_C]
  ∧ Forall loaded [lead_A; lead_C]
  ∧ Forall (λ r, loaded r ∧ is_Some (Tier_Rank r))
      (get_top_priority_leads [lead_A; lead_C] 1).
Proof.
  apply (loaded_preserved plain_re [csv_A; csv_B; csv_C]
           (range_only 4000 10000)).
  reflexivity.
Defined.

(** ** Filter pipeline, continued *)

Lemma list_truthy_if {A} (l : list A) (b : bool) :
  (if list_truthy l then b else true) = true ↔ l = [] ∨ b = true.
Proof. destruct l; simpl; [tauto|]. split; [tauto|]. by intros [?|?]. Qed.

Lemma isin_Some (values : list string) (cell : option string) :
  isin (Some <$> values) cell = true ↔ ∃ s, cell = Some s ∧ s ∈ values.
Proof.
  unfold isin. rewrite bool_decide_eq_true, list_elem_of_fmap.
  split; intros (s & -> & Hs); by exists s.
Qed.

Lemma search_mask_spec (E : ReEngine) (term : string) (case : bool)
    (m : option string → bool) (cell : option string) :
  search_mask E term case = Returns m →
  m cell = true ↔
    (term = "" ∨ ∃ p s, re_compile E term (negb case) = Some p
                        ∧ cell = Some s ∧ re_search E p s = true).
Proof.
  unfold search_mask, str_contains. destruct term as [|c term]; simpl.
  - intros [= <-]. tauto.
  - destruct (re_compile E (String c term) (negb case)) as [p|]; [|done].
    intros [= <-]. split.
    + destruct cell as [s|]; [|done]. intros Hs. right. by exists p, s.
    + intros [?|(p' & s & [= <-] & -> & Hs)]; done.
Qed.

(** X11. What the filters return, row by row: the rows of the input that
    pass every criterion of the request, each as often as the input has it
    and in the order of the input, where an empty list of states, tiers or
    segments or an empty search box is no criterion, the range includes both
    ends, and a search term matches as a regular expression (the employer
    name without regard to case, the EIN in its decimal form).  The result
    is the input under one boolean mask, and the mask is true on a row
    exactly when the row passes every criterion. *)
Theorem apply_filters_rows (E : ReEngine) (df df_filtered : DataFrame)
    (rq : FilterRequest) :
  apply_filters E df rq = Returns df_filtered →
  ∃ keep : Lead → bool,
    df_filtered = boolean_index keep df
    ∧ ∀ r, keep r = true ↔
        (selected_states rq = []
         ∨ ∃ s, State r = Some s ∧ s ∈ selected_states rq)
        ∧ (selected_tiers rq = [] ∨ Priority_Tier r ∈ selected_tiers rq)
        ∧ (participant_range rq).1 ≤ Participants r
          ≤ (participant_range rq).2
        ∧ (selected_segments rq = []
           ∨ Market_Segment r ∈ selected_segments rq)
        ∧ (search_employer rq = ""
           ∨ ∃ p s, re_compile E (search_employer rq) true = Some p
                    ∧ Employer_Name r = Some s ∧ re_search E p s = true)
        ∧ (search_ein rq = ""
           ∨ ∃ p, re_compile E (search_ein rq) false = Some p
                  ∧ re_search E p (py_str_int (EIN r)) = true).
Proof.
  intros Hf.
  rewrite apply_filters_one_pass in Hf. unfold request_mask in Hf.
  destruct (search_mask E (search_employer rq) false) as [m1|] eqn:Hm1;
    [|done].
  destruct (search_mask E (search_ein rq) true) as [m2|] eqn:Hm2; [|done].
  simpl in Hf. injection Hf as <-. eexists. split; [reflexivity|].
  intros r. simpl.
  rewrite !andb_true_iff.
  rewrite (search_mask_spec E _ _ m1 _ Hm1), (search_mask_spec E _ _ m2 _ Hm2).
  rewrite !Z.leb_le.
  rewrite !list_truthy_if, isin_Some, bool_decide_eq_true.
  unfold isin. rewrite bool_decide_eq_true.
  assert ((∃ p s, re_compile E (search_ein rq) (negb true) = Some p
                  ∧ Some (py_str_int (EIN r)) = Some s
                  ∧ re_search E p s = true)
          ↔ (∃ p, re_compile E (search_ein rq) false = Some p
                  ∧ re_search E p (py_str_int (EIN r)) = true)) as ->.
  { split.
    - intros (p & s & Hp & [= <-] & Hs). by exists p.
    - intros (p & Hp & Hs). by exists p, (py_str_int (EIN r)). }
  simpl negb. tauto.
Qed.

Lemma apply_filters_rows_witness :
  ∃ keep : Lead → bool,
    [lead_A; lead_C] = boolean_index keep [lead_A; lead_B; lead_C]
    ∧ ∀ r, keep r = true ↔
        (selected_states (range_only 4000 10000) = []
         ∨ ∃ s, State r = Some s
                ∧ s ∈ selected_states (range_only 4000 10000))
        ∧ (selected_tiers (range_only 4000 10000) = []
           ∨ Priority_Tier r ∈ selected_tiers (range_only 4000 10000))
        ∧ (participant_range (range_only 4000 10000)).1 ≤ Participants r
          ≤ (participant_range (range_only 4000 10000)).2
        ∧ (selected_segments (range_only 4000 10000) = []
           ∨ Market_Segment r ∈ selected_segments (range_only 4000 10000))
        ∧ (search_employer (range_only 4000 10000) = ""
           ∨ ∃ p s, re_compile plain_re
                      (search_employer (range_only 4000 10000)) true = Some p
                    ∧ Employer_Name r = Some s
                    ∧ re_search plain_re p s = true)
        ∧ (search_ein (range_only 4000 10000) = ""
           ∨ ∃ p, re_compile plain_re
                    (search_ein (range_only 4000 10000)) false = Some p
                  ∧ re_search plain_re p (py_str_int (EIN r)) = true).
Proof.
  apply (apply_filters_rows plain_re [lead_A; lead_B; lead_C]
           [lead_A; lead_C] (range_only 4000 10000)).
  reflexivity.
Defined.

Lemma elem_of_unique (col : list string) (x : string) :
  x ∈ unique col ↔ x ∈ col.
Proof.
  induction col as [|y col IH]; [done|]. simpl.
  rewrite !elem_of_cons, list_elem_of_filter, IH.
  destruct (decide (x = y)); tauto.
Qed.

Lemma NoDup_unique (col : list string) : NoDup (unique col).
Proof.
  induction col as [|y col IH]; simpl; [constructor|].
  constructor; [|by apply NoDup_filter].
  rewrite list_elem_of_filter. tauto.
Qed.

Lemma elem_of_dropna (col : list (option string)) (s : string) :
  s ∈ dropna col ↔ Some s ∈ col.
Proof.
  unfold dropna. rewrite list_elem_of_omap. split.
  - intros (x & Hx & Hid). simpl in Hid. by subst.
  - intros Hs. by exists (Some s).
Qed.

Lemma elem_of_all_states_selection (df : DataFrame) (s : string) :
  s ∈ all_states_selection df ↔ ∃ r, r ∈ df ∧ State r = Some s.
Proof.
  unfold all_states_selection.
  rewrite elem_of_unique, elem_of_dropna, list_elem_of_fmap.
  split; intros (r & ? & ?); by exists r.
Qed.

Lemma request_mask_set_states (E : ReEngine) (states : list string)
    (rq : FilterRequest) (m0 : Lead → bool) :
  request_mask E (set_states [] rq) = Returns m0 →
  ∃ m, request_mask E (set_states states rq) = Returns m
       ∧ ∀ r, m r = (if list_truthy states
                     then isin (Some <$> states) (State r) else true)
                    && m0 r.
Proof.
  unfold request_mask, set_states. simpl.
  destruct (search_mask E (search_employer rq) false) as [m1|]; [|done].
  destruct (search_mask E (search_ein rq) true) as [m2|]; [|done].
  simpl. intros [= <-]. eexists. split; [done|]. intros r. simpl.
  by rewrite <- !andb_assoc.
Qed.

Lemma request_mask_set_states_raises (E : ReEngine) (states : list string)
    (rq : FilterRequest) (e : Exn) :
  request_mask E (set_states [] rq) = Raises e →
  request_mask E (set_states states rq) = Raises e.
Proof.
  unfold request_mask, set_states. simpl.
  destruct (search_mask E (search_employer rq) false) as [m1|]; [|done].
  by destruct (search_mask E (search_ein rq) true) as [m2|].
Qed.

(** Selecting states is filtering by state, then by the other criteria. *)
Lemma apply_filters_set_states (E : ReEngine) (states : list string)
    (df : DataFrame) (rq : FilterRequest) :
  apply_filters E df (set_states states rq)
  = apply_filters E
      (boolean_index (λ r, if list_truthy states
                           then isin (Some <$> states) (State r) else true)
         df)
      (set_states [] rq).
Proof.
  rewrite !apply_filters_one_pass.
  destruct (request_mask E (set_states [] rq)) as [m0|e] eqn:Hm0.
  - destruct (request_mask_set_states E states rq m0 Hm0) as (m & -> & Hm).
    simpl. f_equal. rewrite boolean_index_and. by apply boolean_index_ext.
  - by rewrite (request_mask_set_states_raises E states rq e Hm0).
Qed.

(** X12. The selection that the "All States" button and the first run
    store lists the states that occur in the data.  With it the filters return
    what they return, without a selection of states, on the leads that have
    a state: a lead without a state is dropped.  When no lead has a state
    the selection is empty and no lead is dropped for its state. *)
Theorem all_states_selection_filter (E : ReEngine) (df : DataFrame)
    (rq : FilterRequest) :
  apply_filters E df (set_states (all_states_selection df) rq)
  = apply_filters E
      (match all_states_selection df with
       | [] => df
       | _ => state_rows df
       end)
      (set_states [] rq).
Proof.
  rewrite apply_filters_set_states.
  destruct (all_states_selection df) as [|s0 l] eqn:Hsel.
  - by rewrite boolean_index_true.
  - f_equal. unfold state_rows, boolean_index.
    pose proof (elem_of_all_states_selection df) as Hin. rewrite Hsel in Hin.
    apply filter_ext_elem. intros r Hr. cbn [list_truthy].
    rewrite bool_decide_spec, Is_true_true, isin_Some. split.
    + intros (s & -> & _). by eexists.
    + intros [s Hs]. exists s. split; [done|]. apply Hin. by exists r.
Qed.

Lemma py_in_isin (x : option string) (xs : list string) :
  isin (Some <$> xs) x = py_in x xs.
Proof.
  apply eq_true_iff_eq. rewrite isin_Some, py_in_spec. done.
Qed.

(** X13. The "Tier 1 States" button stores [TIER_1_STATES] as the selection
    of states.  On loaded rows the filters with this selection return what
    they return, without a selection of states, on the Tier 1 leads. *)
Theorem tier_1_states_filter (E : ReEngine) (df : DataFrame)
    (rq : FilterRequest) :
  Forall loaded df →
  apply_filters E df (set_states TIER_1_STATES rq)
  = apply_filters E (tier_rows "Tier 1" df) (set_states [] rq).
Proof.
  intros Hl. rewrite apply_filters_set_states. f_equal.
  unfold tier_rows, boolean_index. apply filter_ext_elem. intros r Hr.
  rewrite Forall_forall in Hl. destruct (Hl r Hr) as [Ht _].
  cbn [list_truthy TIER_1_STATES].
  rewrite bool_decide_spec, Ht, priority_tier_1, py_in_isin.
  apply Is_true_true.
Qed.

Lemma tier_1_states_filter_witness :
  apply_filters plain_re unranked
    (set_states TIER_1_STATES (range_only 0 10000))
  = apply_filters plain_re (tier_rows "Tier 1" unranked)
      (set_states [] (range_only 0 10000)).
Proof.
  apply (tier_1_states_filter plain_re unranked).
  apply (load_data_loaded [csv_C; csv_B; csv_A; csv_D]).
Defined.

(** X14. Two requests can be applied in either order: the result, or the
    [re.error], is the same. *)
Theorem apply_filters_comm (E : ReEngine) (df : DataFrame)
    (rq1 rq2 : FilterRequest) :
  (df1 ← apply_filters E df rq1; apply_filters E df1 rq2)
  = (df2 ← apply_filters E df rq2; apply_filters E df2 rq1).
Proof.
  rewrite (apply_filters_one_pass E df rq1), (apply_filters_one_pass E df rq2).
  destruct (request_mask E rq1) as [m1|[]] eqn:H1,
           (request_mask E rq2) as [m2|[]] eqn:H2; simpl;
    rewrite ?apply_filters_one_pass, ?H1, ?H2; simpl; try done.
  f_equal. rewrite !boolean_index_and. apply boolean_index_ext.
  intros r. apply andb_comm.
Qed.

(** X15. A request without lists and search terms keeps the leads inside
    its participants range, and it returns the frame as it is exactly when
    every lead is inside the range. *)
Theorem range_only_filter (E : ReEngine) (df : DataFrame) (lo hi : Z) :
  apply_filters E df (range_only lo hi)
  = Returns (filter_participants (lo, hi) df)
  ∧ (apply_filters E df (range_only lo hi) = Returns df
     ↔ ∀ r, r ∈ df → lo ≤ Participants r ≤ hi).
Proof.
  assert (apply_filters E df (range_only lo hi)
          = Returns (filter_participants (lo, hi) df)) as Heq by done.
  split; [done|]. rewrite Heq. unfold filter_participants, boolean_index.
  split.
  - intros [= Hf] r Hr. rewrite <- Hf in Hr.
    apply list_elem_of_filter in Hr as [Hr _]. simpl in Hr.
    apply andb_True in Hr as [H1 H2].
    apply Is_true_true, Z.leb_le in H1, H2. lia.
  - intros Hall. f_equal. apply filter_all, Forall_forall. intros r Hr.
    specialize (Hall r Hr). simpl. apply andb_True.
    split; apply Is_true_true, Z.leb_le; lia.
Qed.

(** ** Lead table *)

(** X16. The lead at position [i] of the sliced sequence is on page
    [i // k + 1], in row [i mod k] of that page. *)
Theorem page_slice_lookup {A} (l : list A) (k : Z) (i : nat) :
  0 < k →
  page_slice l k (Z.of_nat i `div` k + 1) !! Z.to_nat (Z.of_nat i `mod` k)
  = l !! i.
Proof.
  intros Hk.
  pose proof (Z.div_pos (Z.of_nat i) k ltac:(lia) Hk) as Hq.
  pose proof (Z.mod_pos_bound (Z.of_nat i) k Hk) as Hr.
  pose proof (Z.div_mod (Z.of_nat i) k ltac:(lia)) as Hdm.
  rewrite page_slice_take_drop by lia.
  rewrite lookup_take_lt by lia. rewrite lookup_drop. f_equal. nia.
Qed.

Lemma page_slice_lookup_witness :
  page_slice [lead_A; lead_B; lead_C] 2 (Z.of_nat 2 `div` 2 + 1)
    !! Z.to_nat (Z.of_nat 2 `mod` 2)
  = [lead_A; lead_B; lead_C] !! 2%nat.
Proof. apply (page_slice_lookup [lead_A; lead_B; lead_C] 2 2). lia. Defined.

(** X17. Every page the number input offers, 1 to [total_pages], has a
    table with at least one row, and the caption counts its rows: it shows
    [first]-[last] of the number of filtered leads, the page has
    [last - first + 1] rows, and [1 <= first <= last]. *)
Theorem df_page_caption (df_filtered : DataFrame) (page : Z) :
  1 ≤ page ≤ total_pages (Z.of_nat (length df_filtered)) leads_per_page →
  ∃ rows,
    df_page df_filtered page = Some rows
    ∧ rows ≠ []
    ∧ (caption df_filtered page).2 = Z.of_nat (length df_filtered)
    ∧ Z.of_nat (length rows)
      = (caption df_filtered page).1.2 - (caption df_filtered page).1.1 + 1
    ∧ 1 ≤ (caption df_filtered page).1.1 ≤ (caption df_filtered page).1.2
      ≤ Z.of_nat (length df_filtered).
Proof.
  intros Hp.
  pose proof (total_pages_bounds (Z.of_nat (length df_filtered))
                leads_per_page eq_refl) as Hb.
  unfold df_page, caption. cbn [fst snd].
  rewrite (proj2 (Z.ltb_lt _ _)) by lia.
  eexists. split; [done|].
  rewrite page_slice_take_drop by (unfold leads_per_page; lia).
  assert (Z.of_nat (length (take (Z.to_nat leads_per_page)
            (drop (Z.to_nat ((page - 1) * leads_per_page))
               (display_cols <$> df_filtered))))
          = Z.min ((page - 1) * leads_per_page + leads_per_page)
              (Z.of_nat (length df_filtered))
            - ((page - 1) * leads_per_page + 1) + 1) as Hlen.
  { rewrite length_take, length_drop, length_fmap.
    unfold leads_per_page in *. lia. }
  split; [|split; [done|split; [done|]]].
  - intros Hnil. rewrite Hnil in Hlen. simpl in Hlen.
    unfold leads_per_page in *. lia.
  - unfold leads_per_page in *. lia.
Qed.

Lemma df_page_caption_witness :
  ∃ rows,
    df_page unranked 1 = Some rows
    ∧ rows ≠ []
    ∧ (caption unranked 1).2 = Z.of_nat (length unranked)
    ∧ Z.of_nat (length rows)
      = (caption unranked 1).1.2 - (caption unranked 1).1.1 + 1
    ∧ 1 ≤ (caption unranked 1).1.1 ≤ (caption unranked 1).1.2
      ≤ Z.of_nat (length unranked).
Proof. apply (df_page_caption unranked 1). by vm_compute. Defined.

(** ** Query lookup *)

Lemma str_truthy_spec (s : string) : str_truthy s = true ↔ s ≠ "".
Proof. by destruct s. Qed.

Lemma cell_eq_Some (cell : option string) (s : string) :
  cell_eq cell (Some s) = true ↔ cell = Some s.
Proof.
  destruct cell as [a|]; simpl; [|done].
  rewrite bool_decide_eq_true. split; [by intros ->|by intros [= ->]].
Qed.

Lemma name_rows_first (df before after : DataFrame) (r0 : Lead) (s : string) :
  df = before ++ r0 :: after →
  Employer_Name r0 = Some s →
  Forall (λ r, Employer_Name r ≠ Some s) before →
  boolean_index (λ r, cell_eq (Employer_Name r) (Some s)) df
  = r0 :: boolean_index (λ r, cell_eq (Employer_Name r) (Some s)) after.
Proof.
  intros -> H0 Hb. unfold boolean_index.
  rewrite filter_app, filter_cons_True by by apply Is_true_true, cell_eq_Some.
  rewrite filter_none; [done|].
  eapply Forall_impl; [exact Hb|]. intros r Hr Hc.
  by apply Is_true_true, cell_eq_Some in Hc.
Qed.

(** X18. For a picked employer name the query shown is the stored query of
    the first lead of the filtered frame with that name, wherever the picked
    lead is. *)
Theorem query_display_first (df_filtered before after : DataFrame)
    (r0 : Lead) (s : string) :
  s ≠ "" →
  df_filtered = before ++ r0 :: after →
  Employer_Name r0 = Some s →
  Forall (λ r, Employer_Name r ≠ Some s) before →
  query_display df_filtered (Some s) = Ok (Some (Perplexity_Query r0)).
Proof.
  intros Hs Hdf H0 Hb. unfold query_display. cbn [cell_truthy].
  rewrite (proj2 (str_truthy_spec s) Hs).
  by rewrite (name_rows_first df_filtered before after r0 s).
Qed.

Lemma query_display_first_witness :
  query_display [lead_C; lead_A; lead_B; lead_A_small] (Some "A")
  = Ok (Some (Perplexity_Query lead_A)).
Proof.
  apply (query_display_first _ [lead_C] [lead_B; lead_A_small] lead_A "A");
    [done|reflexivity|reflexivity|].
  by repeat constructor.
Defined.

(** X19. The lookup of the picked employer raises [IndexError] when the
    picked lead has no employer name ([nan] is true and equal to no cell)
    and when no lead of the frame has the picked name; it shows nothing for
    the empty name. *)
Theorem query_display_raises (df_filtered : DataFrame) :
  query_display df_filtered None = Exc IndexError
  ∧ query_display df_filtered (Some "") = Ok None
  ∧ ∀ s, s ≠ "" →
      (query_display df_filtered (Some s) = Exc IndexError
       ↔ ∀ r, r ∈ df_filtered → Employer_Name r ≠ Some s).
Proof.
  split; [|split].
  - unfold query_display. cbn [cell_truthy].
    rewrite boolean_index_none; [done|]. intros r. by destruct (Employer_Name r).
  - done.
  - intros s Hs. unfold query_display. cbn [cell_truthy].
    rewrite (proj2 (str_truthy_spec s) Hs). unfold boolean_index.
    destruct (filter _ df_filtered) as [|r0 l] eqn:Hf; simpl.
    + split; [|done]. intros _ r Hr Hn.
      eapply (filter_nil_not_elem_of _ _ r); [exact Hf| |done].
      by apply Is_true_true, cell_eq_Some.
    + split; [done|]. intros Hall.
      assert (r0 ∈ filter (λ r, cell_eq (Employer_Name r) (Some s)) df_filtered)
        as Hin by (rewrite Hf; by left).
      apply list_elem_of_filter in Hin as [Hc Hin].
      apply Is_true_true, cell_eq_Some in Hc. by destruct (Hall r0 Hin).
Qed.

(** ** Query generator, continued *)

Lemma str_all_app (P : Ascii.ascii → bool) (s t : string) :
  str_all P (s +:+ t) = str_all P s && str_all P t.
Proof.
  induction s as [|c s IH]; [done|].
  change (String c s +:+ t) with (String c (s +:+ t)). simpl.
  by rewrite IH, andb_assoc.
Qed.

Lemma pretty_N_char_numeral (x : N) : numeral_char (pretty_N_char x) = true.
Proof. unfold pretty_N_char. by repeat case_match. Qed.

Lemma pretty_N_go_numeral (x : N) (s : string) :
  str_all numeral_char s = true →
  str_all numeral_char (pretty_N_go x s) = true.
Proof.
  revert s. induction (N.lt_wf_0 x) as [x _ IH]; intros s Hs.
  assert (x = 0 ∨ 0 < x)%N as [->|Hx] by lia.
  - by rewrite pretty_N_go_0.
  - rewrite pretty_N_go_step by done. apply IH; [by apply N.div_lt|].
    simpl. by rewrite pretty_N_char_numeral.
Qed.

(** The decimal form of an integer is made of digits and a minus sign. *)
Lemma py_str_int_numeral (n : Z) : str_all numeral_char (py_str_int n) = true.
Proof.
  unfold py_str_int, pretty, pretty_Z.
  destruct n as [|p|p]; [done| |].
  - unfold pretty, pretty_positive, pretty, pretty_N.
    case_decide; [done|]. by apply pretty_N_go_numeral.
  - rewrite str_all_app. unfold pretty, pretty_positive, pretty, pretty_N.
    case_decide; [done|]. simpl. by apply pretty_N_go_numeral.
Qed.

(** Two numerals, each followed by a character that is not of a numeral,
    are equal when the two texts are. *)
Lemma numeral_prefix_inj (d1 d2 : string) (c : Ascii.ascii) (t1 t2 : string) :
  str_all numeral_char d1 = true → str_all numeral_char d2 = true →
  numeral_char c = false →
  d1 +:+ String c t1 = d2 +:+ String c t2 → d1 = d2 ∧ t1 = t2.
Proof.
  intros H1 H2 Hc. revert d2 H2.
  induction d1 as [|a d1 IH]; intros [|b d2] H2 Heq.
  - by injection Heq as ->.
  - injection Heq as -> _. simpl in H2. by rewrite Hc in H2.
  - injection Heq as -> _. simpl in H1. by rewrite Hc in H1.
  - injection Heq as -> Heq. simpl in H1, H2.
    apply andb_true_iff in H1 as [_ H1]. apply andb_true_iff in H2 as [_ H2].
    destruct (IH H1 d2 H2 Heq) as [-> ->]. done.
Qed.

Lemma str_length_app (s t : string) :
  String.length (s +:+ t) = (String.length s + String.length t)%nat.
Proof.
  induction s as [|c s IH]; [done|].
  change (String c s +:+ t) with (String c (s +:+ t)). simpl. by rewrite IH.
Qed.

Lemma str_app_inj_r (s1 s2 t : string) : s1 +:+ t = s2 +:+ t → s1 = s2.
Proof.
  revert s2. induction s1 as [|a s1 IH]; intros [|b s2] Heq; [done| | |].
  - apply (f_equal String.length) in Heq.
    rewrite !str_length_app in Heq. simpl in Heq. lia.
  - apply (f_equal String.length) in Heq.
    rewrite !str_length_app in Heq. simpl in Heq. lia.
  - change (String a (s1 +:+ t) = String b (s2 +:+ t)) in Heq.
    injection Heq as -> Heq. by rewrite (IH s2 Heq).
Qed.

Lemma perplexity_query_inj_ein (name : option string) (ein1 ein2 : Z)
    (state1 state2 : option string) :
  perplexity_query name ein1 state1 = perplexity_query name ein2 state2 →
  ein1 = ein2.
Proof.
  unfold perplexity_query. intros Heq.
  do 3 apply String.app_inj in Heq.
  eapply numeral_prefix_inj in Heq as [Hein _];
    [|apply py_str_int_numeral..|done].
  by apply (inj pretty).
Qed.

(** X20. For one employer name the query tells the EIN and the printed
    state apart: two leads with the same name and the same query have the
    same EIN and the same printed state. *)
Theorem perplexity_query_inj (name : option string) (ein1 ein2 : Z)
    (state1 state2 : option string) :
  perplexity_query name ein1 state1 = perplexity_query name ein2 state2 →
  ein1 = ein2 ∧ py_str state1 = py_str state2.
Proof.
  unfold perplexity_query. intros Heq.
  do 3 apply String.app_inj in Heq.
  eapply numeral_prefix_inj in Heq as [Hein Heq];
    [|apply py_str_int_numeral..|done].
  split; [by apply (inj pretty)|].
  change (" in " +:+ py_str state1 +:+ ". Include their name, title, email, and phone if available."
          = " in " +:+ py_str state2 +:+ ". Include their name, title, email, and phone if available.") in Heq.
  apply String.app_inj in Heq. by apply str_app_inj_r in Heq.
Qed.

Lemma perplexity_query_inj_example :
  perplexity_query (Some "A") 11 None
  = perplexity_query (Some "A") 11 (Some "nan").
Proof. reflexivity. Qed.

(** X21. When two leads of the filtered frame have the same employer name
    and different EINs, picking the later one shows the query of the first
    one, which is not the query of the picked lead. *)
Theorem query_display_duplicate (df_filtered before after : DataFrame)
    (r1 r2 : Lead) (s : string) :
  s ≠ "" →
  df_filtered = before ++ r1 :: after →
  Forall (λ r, Employer_Name r ≠ Some s) before →
  Employer_Name r1 = Some s → Employer_Name r2 = Some s →
  loaded r1 → loaded r2 → EIN r1 ≠ EIN r2 →
  query_display df_filtered (Employer_Name r2)
  = Ok (Some (Perplexity_Query r1))
  ∧ Perplexity_Query r1 ≠ Perplexity_Query r2.
Proof.
  intros Hs Hdf Hb H1 H2 [_ Hq1] [_ Hq2] Hein. split.
  - rewrite H2. unfold query_display. cbn [cell_truthy].
    rewrite (proj2 (str_truthy_spec s) Hs).
    by rewrite (name_rows_first df_filtered before after r1 s).
  - rewrite Hq1, Hq2. unfold generate_query. rewrite H1, H2. intros Heq.
    by apply perplexity_query_inj_ein in Heq.
Qed.

Lemma perplexity_query_inj_witness :
  (11 : Z) = 11 ∧ py_str None = py_str (Some "nan").
Proof.
  apply (perplexity_query_inj (Some "A") 11 11 None (Some "nan")).
  reflexivity.
Defined.

Lemma query_display_duplicate_witness :
  query_display [lead_C; lead_A; lead_B; lead_A_other]
    (Employer_Name lead_A_other)
  = Ok (Some (Perplexity_Query lead_A))
  ∧ Perplexity_Query lead_A ≠ Perplexity_Query lead_A_other.
Proof.
  apply (query_display_duplicate _ [lead_C] [lead_B; lead_A_other]
           lead_A lead_A_other "A"); try done.
  by repeat constructor.
Defined.

(** ** Geographic chart *)

Lemma count_of_pos (s : string) (col : list string) :
  (0 < count_of s col)%nat ↔ s ∈ col.
Proof.
  unfold count_of. split.
  - intros Hpos. destruct (filter _ col) as [|x l] eqn:Hf; [simpl in Hpos; lia|].
    assert (x ∈ filter (λ y, y = s) col) as Hx by (rewrite Hf; by left).
    by apply list_elem_of_filter in Hx as [-> Hx].
  - intros Hs.
    assert (s ∈ filter (λ y, y = s) col) as Hx by by apply list_elem_of_filter.
    destruct (filter _ col); [by apply elem_of_nil in Hx|simpl; lia].
Qed.

Lemma dropna_cons (x : option string) (col : list (option string)) :
  dropna (x :: col)
  = match x with Some s => s :: dropna col | None => dropna col end.
Proof. by destruct x. Qed.

(** The cells of the state column that hold [s] are the rows of state [s]. *)
Lemma count_of_State (s : string) (df : DataFrame) :
  count_of s (dropna (State <$> df))
  = length (boolean_index (λ r, bool_decide (State r = Some s)) df).
Proof.
  unfold count_of, boolean_index.
  induction df as [|r df IH]; [done|].
  rewrite fmap_cons, dropna_cons.
  destruct (State r) as [x|] eqn:Hx.
  - destruct (decide (x = s)) as [->|Hne].
    + rewrite !filter_cons_True; [simpl; by rewrite IH| |done].
      apply bool_decide_pack. by rewrite Hx.
    + rewrite !filter_cons_False; [done| |done].
      intros Hb. apply bool_decide_unpack in Hb. congruence.
  - rewrite filter_cons_False; [done|].
    intros Hb. apply bool_decide_unpack in Hb. congruence.
Qed.

Lemma value_counts_perm
    (sort_counts : list (string * nat) → list (string * nat))
    (col : list (option string)) :
  sorts_descending sort_counts →
  value_counts sort_counts col
  ≡ₚ (λ s, (s, count_of s (dropna col))) <$> unique (dropna col).
Proof. intros Hs. apply Hs. Qed.

Lemma value_counts_states
    (sort_counts : list (string * nat) → list (string * nat))
    (col : list (option string)) :
  sorts_descending sort_counts →
  fst <$> value_counts sort_counts col ≡ₚ unique (dropna col).
Proof.
  intros Hs. rewrite (value_counts_perm _ _ Hs), <- list_fmap_compose.
  apply reflexive_eq, list_fmap_id.
Qed.

Lemma elem_of_value_counts
    (sort_counts : list (string * nat) → list (string * nat))
    (col : list (option string)) (s : string) (c : nat) :
  sorts_descending sort_counts →
  (s, c) ∈ value_counts sort_counts col
  ↔ Some s ∈ col ∧ c = count_of s (dropna col).
Proof.
  intros Hs. rewrite (value_counts_perm _ _ Hs), list_elem_of_fmap.
  setoid_rewrite elem_of_unique. setoid_rewrite elem_of_dropna. split.
  - by intros (s' & [= -> ->] & Hin).
  - intros [Hin ->]. by exists s.
Qed.

Lemma head_15 {A} (l : list A) : head 15 l = take 15 l.
Proof. by apply head_take. Qed.

(** X22. The chart has at most 15 bars, one for each of the most frequent
    states, as many as there are states in the data.  The bars are for
    different states, none for a missing state; the count of a bar is the
    number of leads of its state, at least one; the counts do not increase
    from one bar to the next; and the tier of a bar is the tier of its
    state. *)
Theorem create_geographic_chart_bars
    (sort_counts : list (string * nat) → list (string * nat))
    (df : DataFrame) :
  sorts_descending sort_counts →
  length (create_geographic_chart sort_counts df)
  = (15 `min` length (all_states_selection df))%nat
  ∧ NoDup (sc_State <$> create_geographic_chart sort_counts df)
  ∧ StronglySorted (λ a b, (sc_Count b ≤ sc_Count a)%nat)
      (create_geographic_chart sort_counts df)
  ∧ ∀ b, b ∈ create_geographic_chart sort_counts df →
      sc_Count b
      = length (boolean_index
                  (λ r, bool_decide (State r = Some (sc_State b))) df)
      ∧ (1 ≤ sc_Count b)%nat
      ∧ sc_Tier b = priority_tier (Some (sc_State b)).
Proof.
  intros Hs. unfold create_geographic_chart. rewrite head_15.
  set (vc := value_counts sort_counts (State <$> df)).
  split; [|split; [|split]].
  - rewrite length_fmap, length_take. f_equal.
    unfold all_states_selection.
    rewrite <- (value_counts_states sort_counts _ Hs). by rewrite length_fmap.
  - rewrite <- list_fmap_compose.
    apply (sublist_NoDup _ (fst <$> vc)).
    + unfold vc. rewrite (value_counts_states _ _ Hs). apply NoDup_unique.
    + change (sc_State ∘ _) with (@fst string nat).
      apply fmap_sublist, sublist_take.
  - eapply StronglySorted_fmap;
      [|eapply StronglySorted_sublist; [apply sublist_take|apply Hs]].
    by intros x y.
  - intros b Hb. apply list_elem_of_fmap in Hb as ([s c] & -> & Hin).
    simpl. apply elem_of_take in Hin as (i & Hin & _).
    apply list_elem_of_lookup_2 in Hin.
    apply (elem_of_value_counts _ _ _ _ Hs) in Hin as [Hin ->].
    split; [apply count_of_State|].
    split; [|reflexivity].
    apply count_of_pos, elem_of_dropna, Hin.
Qed.

Lemma StronglySorted_mono {A} (R1 R2 : relation A) (l : list A) :
  (∀ x y, R1 x y → R2 x y) → StronglySorted R1 l → StronglySorted R2 l.
Proof.
  intros HR. induction 1 as [|x l Hl IH Hx]; constructor; [done|].
  eapply Forall_impl; [exact Hx|]. intros y. apply HR.
Qed.

Lemma stable_sort_counts_descending : sorts_descending stable_sort_counts.
Proof.
  intros l. split; [apply stable_sort_perm|].
  eapply StronglySorted_mono; [|apply stable_sort_sorted].
  - intros x y Hxy. by apply Nat.leb_le in Hxy.
  - intros x y. rewrite !Nat.leb_le. lia.
  - intros x y z. rewrite !Nat.leb_le. lia.
Qed.

Example create_geographic_chart_two_ties :
  create_geographic_chart stable_sort_counts two_ties
  = [ {| sc_State := "TX"; sc_Count := 2; sc_Tier := "Tier 2" |};
      {| sc_State := "MA"; sc_Count := 2; sc_Tier := "Tier 1" |};
      {| sc_State := "WY"; sc_Count := 1; sc_Tier := "Tier 3" |} ].
Proof. by vm_compute. Qed.

Lemma create_geographic_chart_bars_witness :
  length (create_geographic_chart stable_sort_counts two_ties)
  = (15 `min` length (all_states_selection two_ties))%nat
  ∧ NoDup (sc_State <$> create_geographic_chart stable_sort_counts two_ties)
  ∧ StronglySorted (λ a b, (sc_Count b ≤ sc_Count a)%nat)
      (create_geographic_chart stable_sort_counts two_ties)
  ∧ ∀ b, b ∈ create_geographic_chart stable_sort_counts two_ties →
      sc_Count b
      = length (boolean_index
                  (λ r, bool_decide (State r = Some (sc_State b))) two_ties)
      ∧ (1 ≤ sc_Count b)%nat
      ∧ sc_Tier b = priority_tier (Some (sc_State b)).
Proof.
  apply (create_geographic_chart_bars stable_sort_counts two_ties).
  apply stable_sort_counts_descending.
Defined.

(** X23. A state of the data without a bar is no more frequent than any
    state with a bar, and then the chart has its 15 bars. *)
Theorem create_geographic_chart_top
    (sort_counts : list (string * nat) → list (string * nat))
    (df : DataFrame) (r : Lead) (s : string) :
  sorts_descending sort_counts →
  r ∈ df → State r = Some s →
  s ∉ sc_State <$> create_geographic_chart sort_counts df →
  length (create_geographic_chart sort_counts df) = 15%nat
  ∧ ∀ b, b ∈ create_geographic_chart sort_counts df →
      (length (boolean_index (λ r, bool_decide (State r = Some s)) df)
       ≤ sc_Count b)%nat.
Proof.
  intros Hs Hr Hst Hnot. unfold create_geographic_chart in *.
  rewrite head_15 in *.
  set (vc := value_counts sort_counts (State <$> df)) in *.
  assert ((s, count_of s (dropna (State <$> df))) ∈ vc) as Hin.
  { apply (elem_of_value_counts _ _ _ _ Hs). split; [|done].
    apply list_elem_of_fmap. by exists r. }
  apply list_elem_of_lookup_1 in Hin as [i Hi].
  assert (15 ≤ i)%nat as Hge.
  { destruct (decide (15 ≤ i)%nat) as [|Hlt]; [done|]. destruct Hnot.
    apply list_elem_of_fmap. eexists. split; [|apply list_elem_of_fmap].
    2:{ eexists. split; [done|]. apply elem_of_take. exists i. split; [done|lia]. }
    done. }
  pose proof (lookup_lt_Some _ _ _ Hi) as Hlen.
  split; [rewrite length_fmap, length_take; lia|].
  intros b Hb. apply list_elem_of_fmap in Hb as ([s' c'] & -> & Hb).
  apply elem_of_take in Hb as (j & Hj & Hj15). simpl.
  rewrite <- count_of_State.
  destruct (Hs ((λ s, (s, count_of s (dropna (State <$> df))))
                  <$> unique (dropna (State <$> df)))) as [_ Hsorted].
  apply (StronglySorted_lookup_lt _ _ j i (s', c') _ Hsorted Hj Hi). lia.
Qed.

Lemma create_geographic_chart_top_witness :
  length (create_geographic_chart stable_sort_counts sixteen_states) = 15%nat
  ∧ ∀ b, b ∈ create_geographic_chart stable_sort_counts sixteen_states →
      (length (boolean_index (λ r, bool_decide (State r = Some "WA"))
                 sixteen_states)
       ≤ sc_Count b)%nat.
Proof.
  apply (create_geographic_chart_top stable_sort_counts sixteen_states
           (lead_in "WA") "WA").
  - apply stable_sort_counts_descending.
  - apply list_elem_of_fmap. exists "WA". split; [done|].
    apply (bool_decide_unpack _). by vm_compute.
  - reflexivity.
  - apply (bool_decide_unpack _). by vm_compute.
Defined.

(** ** Truncation *)

Lemma slice_bound_0 (len : Z) : 0 ≤ len → slice_bound len 0 = 0.
Proof. intros Hl. unfold slice_bound. simpl. lia. Qed.

(** X24. The number of top priority leads for every [n]: [n] of them, or
    all when there are fewer, for [n >= 0]; for a negative [n] all but the
    last [-n] ranked leads, none when there are not more than [-n]. *)
Theorem top_n_length (df : DataFrame) (n : Z) :
  Z.of_nat (length (get_top_priority_leads df n))
  = (if n <? 0 then Z.max 0 (Z.of_nat (length df) + n)
     else Z.min n (Z.of_nat (length df)))
  ∧ get_top_priority_leads df n `prefix_of` rank df.
Proof.
  pose proof (Permutation_length (rank_perm df)) as Hlen.
  unfold get_top_priority_leads, head, iloc_slice. rewrite Hlen.
  rewrite slice_bound_0 by lia. rewrite drop_0, Z.sub_0_r.
  split; [|apply prefix_take].
  rewrite length_take, Hlen. unfold slice_bound.
  destruct (n <? 0) eqn:Hn; [apply Z.ltb_lt in Hn|apply Z.ltb_ge in Hn]; lia.
Qed.

(** ** Ties *)

Lemma StronglySorted_all {A} (R : relation A) (P : A → Prop) (l : list A) :
  (∀ x y, P x → P y → R x y) → Forall P l → StronglySorted R l.
Proof.
  intros HR. induction 1 as [|x l Hx Hl IH]; constructor; [done|].
  eapply Forall_impl; [exact Hl|]. intros y. by apply HR.
Qed.

(** X25. The leads that tie, with the same tier label and the same
    participant count, come out of the ranking as they went in: the same
    rows in the same order. *)
Theorem rank_ties (df : DataFrame) (tier : string) (participants : Z) :
  tie_rows tier participants (rank df) = tie_rows tier participants df.
Proof.
  unfold tie_rows. rewrite rank_boolean_index. apply rank_id.
  apply (StronglySorted_all _
           (λ r, Priority_Tier r = tier ∧ Participants r = participants)).
  - intros x y [Hx1 Hx2] [Hy1 Hy2]. apply outranks_spec. right.
    unfold Tier_Rank. rewrite Hx1, Hy1. split; [done|lia].
  - apply Forall_forall. intros r Hr. unfold boolean_index in Hr.
    apply list_elem_of_filter in Hr as [Hr _].
    apply andb_True in Hr as [H1 H2].
    apply bool_decide_unpack in H1. apply Is_true_true, Z.eqb_eq in H2. done.
Qed.
